(** * ingest.py: loading a directory tree of JSON-lines files and auditing
    the keys of the loaded records.

    The development embeds [load_json_file], [load_dir], [load_all_data]
    and [identify_missing_keys] of [src/ingest.py], together with the small
    part of the Python runtime they call (exceptions, [os.path], text-file
    iteration, [json.loads], [print]). *)

From Stdlib Require Import ZArith String Ascii List Lia.
From stdpp Require Import base option list gmap strings.

Local Open Scope string_scope.

(** ** Python runtime: exceptions and results *)

(** The exception classes the script can raise, by class name.  The message
    text carried by an exception is not modelled. *)
Inductive exn :=
  | FileNotFoundError
  | NotADirectoryError
  | IsADirectoryError
  | ValueError
  | JSONDecodeError
  | TypeError
  | AttributeError
  | KeyError.

Global Instance exn_eq_dec : EqDecision exn.
Proof. solve_decision. Defined.

(** A computation that either raises or returns. *)
Definition result (A : Type) : Type := exn + A.

Definition raise {A} (e : exn) : result A := inl e.
Definition ret {A} (a : A) : result A := inr a.

Definition rbind {A B} (m : result A) (f : A → result B) : result B :=
  match m with
  | inl e => inl e
  | inr a => f a
  end.

Notation "x ←r m ; k" := (rbind m (λ x, k))
  (at level 100, m at next level, k at level 200, right associativity,
   format "x  ←r  m ;  '/' k").

(** ** Python runtime: strings and paths *)

Definition LF : ascii := "010"%char.
Definition CR : ascii := "013"%char.

(** [s.endswith(suffix)] *)
Definition str_endswith (s suffix : string) : bool :=
  let n := String.length s in
  let m := String.length suffix in
  (m <=? n)%nat && String.eqb (String.substring (n - m) m s) suffix.

(** Truth value of an optional string argument: [None] and [''] are false. *)
Definition truthy (s : option string) : bool :=
  match s with
  | None => false
  | Some s => negb (String.eqb s "")
  end.

(** [os.path.join(a, b)] on a POSIX system, for two components.  A [None]
    first component makes [os.path.join] raise [TypeError]. *)
Definition os_path_join (a : option string) (b : string) : result string :=
  match a with
  | None => raise TypeError
  | Some a =>
      if String.prefix "/" b then ret b
      else if String.eqb a "" || str_endswith a "/" then ret (a ++ b)
      else ret (a ++ "/" ++ b)
  end.

(** ** The file system

    A file system is a finite map from path strings to nodes.  A regular
    file holds its decoded text, a directory holds the names [os.listdir]
    enumerates, in enumeration order.  Paths are compared as strings; a
    listed name need not resolve (a dangling link). *)
Inductive node :=
  | File (text : string)
  | Dir (entries : list string).

Abbreviation filesystem := (gmap string node).

Definition fs_lookup (fs : filesystem) (p : string) : option node :=
  if String.eqb p "" then None else fs !! p.

(** [os.path.exists(p)] *)
Definition os_path_exists (fs : filesystem) (p : string) : bool :=
  match fs_lookup fs p with
  | Some _ => true
  | None => false
  end.

(** [os.path.isdir(p)] *)
Definition os_path_isdir (fs : filesystem) (p : string) : bool :=
  match fs_lookup fs p with
  | Some (Dir _) => true
  | _ => false
  end.

(** [os.listdir(p)]; [os.listdir(None)] lists the current directory. *)
Definition os_listdir (fs : filesystem) (p : option string) : result (list string) :=
  match fs_lookup fs (default "." p) with
  | Some (Dir entries) => ret entries
  | Some (File _) => raise NotADirectoryError
  | None => raise FileNotFoundError
  end.

(** Text mode translates ["\r\n"] and ["\r"] to ["\n"] on reading. *)
Fixpoint universal_newlines (s : string) : string :=
  match s with
  | EmptyString => EmptyString
  | String c rest =>
      if Ascii.eqb c CR then
        match rest with
        | String c' rest' =>
            if Ascii.eqb c' LF then String LF (universal_newlines rest')
            else String LF (universal_newlines rest)
        | EmptyString => String LF EmptyString
        end
      else String c (universal_newlines rest)
  end.

(** Iterating a text file yields its lines, each with its terminating
    newline; a last line without a newline is yielded as it is. *)
Fixpoint split_lines (s : string) : list string :=
  match s with
  | EmptyString => []
  | String c rest =>
      if Ascii.eqb c LF then String LF EmptyString :: split_lines rest
      else match split_lines rest with
           | [] => [String c EmptyString]
           | l :: ls => String c l :: ls
           end
  end.

(** [open(p)] followed by iteration over the file object. *)
Definition open_lines (fs : filesystem) (p : option string) : result (list string) :=
  match p with
  | None => raise TypeError
  | Some p =>
      match fs_lookup fs p with
      | Some (File text) => ret (split_lines (universal_newlines text))
      | Some (Dir _) => raise IsADirectoryError
      | None => raise FileNotFoundError
      end
  end.

(** ** Python runtime: [json.loads]

    Parsed JSON values.  An integer literal becomes a Python [int]; a
    literal with a fraction or an exponent becomes a [float], kept here by
    its lexeme; an object becomes a [dict], kept as the list of its items
    in insertion order, keys distinct. *)
#[warnings="-register-all"] Inductive json :=
  | JNull
  | JBool (b : bool)
  | JInt (n : Z)
  | JFloat (lexeme : string)
  | JString (s : string)
  | JArray (items : list json)
  | JObject (members : list (string * json)).

(** [d[k] = v] on the item list of a [dict]: an existing key keeps its
    position and takes the new value, a new key goes last. *)
Fixpoint dict_setitem {V} (k : string) (v : V) (d : list (string * V)) : list (string * V) :=
  match d with
  | [] => [(k, v)]
  | (k', v') :: d' =>
      if String.eqb k k' then (k, v) :: d' else (k', v') :: dict_setitem k v d'
  end.

(** [dict(pairs)] *)
Definition dict_of_pairs {V} (pairs : list (string * V)) : list (string * V) :=
  fold_left (λ d kv, dict_setitem kv.1 kv.2 d) pairs [].

Definition DQUOTE : ascii := "034"%char.
Definition BACKSLASH : ascii := "092"%char.

Definition is_ws (c : ascii) : bool :=
  Ascii.eqb c " " || Ascii.eqb c "009" || Ascii.eqb c LF || Ascii.eqb c CR.

Fixpoint skip_ws (s : string) : string :=
  match s with
  | EmptyString => EmptyString
  | String c rest => if is_ws c then skip_ws rest else s
  end.

Fixpoint strip_prefix (p s : string) : option string :=
  match p with
  | EmptyString => Some s
  | String a p' =>
      match s with
      | EmptyString => None
      | String b s' => if Ascii.eqb a b then strip_prefix p' s' else None
      end
  end.

Definition is_digit (c : ascii) : bool :=
  let n := N_of_ascii c in ((48 <=? n) && (n <=? 57))%N.

Definition hex_digit (c : ascii) : option N :=
  let n := N_of_ascii c in
  if ((48 <=? n) && (n <=? 57))%N then Some (n - 48)%N
  else if ((65 <=? n) && (n <=? 70))%N then Some (n - 55)%N
  else if ((97 <=? n) && (n <=? 102))%N then Some (n - 87)%N
  else None.

Definition hex4 (a b c d : ascii) : option N :=
  match hex_digit a, hex_digit b, hex_digit c, hex_digit d with
  | Some a, Some b, Some c, Some d => Some (((a * 16 + b) * 16 + c) * 16 + d)%N
  | _, _, _, _ => None
  end.

(** Python strings are sequences of code points; the model keeps them as
    their UTF-8 code units. *)
Definition utf8_encode (cp : N) : string :=
  let byte (n : N) := ascii_of_N n in
  let cont (n : N) := byte (128 + n mod 64)%N in
  if (cp <? 128)%N then String (byte cp) ""
  else if (cp <? 2048)%N then String (byte (192 + cp / 64)%N) (String (cont cp) "")
  else if (cp <? 65536)%N then
    String (byte (224 + cp / 4096)%N) (String (cont (cp / 64)%N) (String (cont cp) ""))
  else
    String (byte (240 + cp / 262144)%N)
      (String (cont (cp / 4096)%N) (String (cont (cp / 64)%N) (String (cont cp) ""))).

Definition is_high_surrogate (cp : N) : bool := ((55296 <=? cp) && (cp <=? 56319))%N.
Definition is_low_surrogate (cp : N) : bool := ((56320 <=? cp) && (cp <=? 57343))%N.
Definition join_surrogates (hi lo : N) : N :=
  (65536 + ((hi - 55296) * 1024 + (lo - 56320)))%N.

(** The single-character escapes of a JSON string. *)
Definition unescape (e : ascii) : option ascii :=
  if Ascii.eqb e DQUOTE then Some DQUOTE
  else if Ascii.eqb e BACKSLASH then Some BACKSLASH
  else if Ascii.eqb e "/" then Some "/"%char
  else if Ascii.eqb e "b" then Some "008"%char
  else if Ascii.eqb e "f" then Some "012"%char
  else if Ascii.eqb e "n" then Some LF
  else if Ascii.eqb e "r" then Some CR
  else if Ascii.eqb e "t" then Some "009"%char
  else None.

Definition prepend (chunk : string) (r : option (string * string)) : option (string * string) :=
  match r with
  | Some (body, rest) => Some (chunk ++ body, rest)
  | None => None
  end.

(** [scanstring] in strict mode, started after the opening quote: the
    decoded string and the input after the closing quote. *)
Fixpoint scanstring (s : string) : option (string * string) :=
  match s with
  | EmptyString => None
  | String c rest =>
      if Ascii.eqb c DQUOTE then Some ("", rest)
      else if Ascii.eqb c BACKSLASH then
        match rest with
        | EmptyString => None
        | String e rest1 =>
            if Ascii.eqb e "u" then
              match rest1 with
              | String h1 (String h2 (String h3 (String h4 rest2))) =>
                  match hex4 h1 h2 h3 h4 with
                  | None => None
                  | Some uni =>
                      if is_high_surrogate uni then
                        match rest2 with
                        | String b (String u (String g1 (String g2 (String g3 (String g4 rest3))))) =>
                            if Ascii.eqb b BACKSLASH && Ascii.eqb u "u" then
                              match hex4 g1 g2 g3 g4 with
                              | None => None
                              | Some uni2 =>
                                  if is_low_surrogate uni2
                                  then prepend (utf8_encode (join_surrogates uni uni2)) (scanstring rest3)
                                  else prepend (utf8_encode uni) (scanstring rest2)
                              end
                            else prepend (utf8_encode uni) (scanstring rest2)
                        | _ => prepend (utf8_encode uni) (scanstring rest2)
                        end
                      else prepend (utf8_encode uni) (scanstring rest2)
                  end
              | _ => None
              end
            else
              match unescape e with
              | Some ch => prepend (String ch "") (scanstring rest1)
              | None => None
              end
        end
      else if (N_of_ascii c <? 32)%N then None
      else prepend (String c "") (scanstring rest)
  end.

Fixpoint span_digits (s : string) : string * string :=
  match s with
  | EmptyString => ("", "")
  | String c rest =>
      if is_digit c then let '(ds, r) := span_digits rest in (String c ds, r)
      else ("", s)
  end.

Definition digits_value (ds : string) : Z :=
  fold_left (λ acc c, acc * 10 + Z.of_N (N_of_ascii c - 48))%Z (list_ascii_of_string ds) 0%Z.

(** The integer part of a number: an optional minus sign, then either a
    single zero or a non-zero digit followed by any digits. *)
Definition match_integer (s : string) : option (string * string) :=
  let '(sign, s1) :=
    match s with
    | String c r => if Ascii.eqb c "-" then ("-", r) else ("", s)
    | EmptyString => ("", s)
    end in
  match s1 with
  | EmptyString => None
  | String c r =>
      if Ascii.eqb c "0" then Some (sign ++ "0", r)
      else if is_digit c then let '(ds, r') := span_digits s1 in Some (sign ++ ds, r')
      else None
  end.

(** The optional fraction: a dot followed by at least one digit. *)
Definition match_fraction (s : string) : option (string * string) :=
  match s with
  | String c r =>
      if Ascii.eqb c "." then
        match span_digits r with
        | (EmptyString, _) => None
        | (ds, r') => Some (String c ds, r')
        end
      else None
  | EmptyString => None
  end.

(** The optional exponent: e or E, an optional sign, at least one digit. *)
Definition match_exponent (s : string) : option (string * string) :=
  match s with
  | String c r =>
      if Ascii.eqb c "e" || Ascii.eqb c "E" then
        let '(sign, r1) :=
          match r with
          | String d r0 =>
              if Ascii.eqb d "-" || Ascii.eqb d "+" then (String d "", r0) else ("", r)
          | EmptyString => ("", r)
          end in
        match span_digits r1 with
        | (EmptyString, _) => None
        | (ds, r') => Some (String c (sign ++ ds), r')
        end
      else None
  | EmptyString => None
  end.

Definition int_of_lexeme (lex : string) : Z :=
  match lex with
  | String c ds => if Ascii.eqb c "-" then (- digits_value ds)%Z else digits_value lex
  | EmptyString => 0%Z
  end.

(** [NUMBER_RE.match] and the conversion of its groups. *)
Definition match_number (s : string) : option (json * string) :=
  match match_integer s with
  | None => None
  | Some (integer, r1) =>
      let '(frac, r2) := match match_fraction r1 with
                         | Some (f, r) => (f, r)
                         | None => ("", r1)
                         end in
      let '(exp, r3) := match match_exponent r2 with
                        | Some (e, r) => (e, r)
                        | None => ("", r2)
                        end in
      if String.eqb frac "" && String.eqb exp "" then Some (JInt (int_of_lexeme integer), r3)
      else Some (JFloat (integer ++ frac ++ exp), r3)
  end.

(** Outcome of scanning a value at the head of the input: the value and
    the remaining input, a [JSONDecodeError], or recursion budget used up
    (which [json_loads_fuel] rules out for the budget [json_loads] gives). *)
Inductive scan (A : Type) :=
  | Scanned (a : A) (rest : string)
  | Malformed
  | Exhausted.
Arguments Scanned {A} a rest.
Arguments Malformed {A}.
Arguments Exhausted {A}.

(** The loop of [JSONArray], entered at the first value. *)
Fixpoint JSONArray_loop (scan_once : string → scan json) (fuel : nat)
    (s : string) (values : list json) : scan json :=
  match fuel with
  | 0 => Exhausted
  | S fuel' =>
      match scan_once s with
      | Scanned value s1 =>
          let values := (values ++ [value])%list in
          match skip_ws s1 with
          | String c s2 =>
              if Ascii.eqb c "]" then Scanned (JArray values) s2
              else if Ascii.eqb c "," then JSONArray_loop scan_once fuel' (skip_ws s2) values
              else Malformed
          | EmptyString => Malformed
          end
      | Malformed => Malformed
      | Exhausted => Exhausted
      end
  end.

(** The loop of [JSONObject], entered where a property name must start. *)
Fixpoint JSONObject_loop (scan_once : string → scan json) (fuel : nat)
    (s : string) (pairs : list (string * json)) : scan json :=
  match fuel with
  | 0 => Exhausted
  | S fuel' =>
      match s with
      | String q s0 =>
          if Ascii.eqb q DQUOTE then
            match scanstring s0 with
            | Some (key, s1) =>
                match skip_ws s1 with
                | String c s2 =>
                    if Ascii.eqb c ":" then
                      match scan_once (skip_ws s2) with
                      | Scanned value s3 =>
                          let pairs := (pairs ++ [(key, value)])%list in
                          match skip_ws s3 with
                          | String d s4 =>
                              if Ascii.eqb d "}" then Scanned (JObject (dict_of_pairs pairs)) s4
                              else if Ascii.eqb d ","
                              then JSONObject_loop scan_once fuel' (skip_ws s4) pairs
                              else Malformed
                          | EmptyString => Malformed
                          end
                      | Malformed => Malformed
                      | Exhausted => Exhausted
                      end
                    else Malformed
                | EmptyString => Malformed
                end
            | None => Malformed
            end
          else Malformed
      | EmptyString => Malformed
      end
  end.

Definition scan_literal (lit : string) (v : json) (s : string) : option (json * string) :=
  match strip_prefix lit s with
  | Some rest => Some (v, rest)
  | None => None
  end.

(** The first alternative that matches at the head of [s]. *)
Fixpoint first_match (alternatives : list (string → option (json * string)))
    (s : string) : scan json :=
  match alternatives with
  | [] => Malformed
  | alternative :: alternatives =>
      match alternative s with
      | Some (v, rest) => Scanned v rest
      | None => first_match alternatives s
      end
  end.

(** The scalar cases of [scan_once], in the scanner's order. *)
Definition scalars : list (string → option (json * string)) :=
  [ scan_literal "null" JNull; scan_literal "true" (JBool true);
    scan_literal "false" (JBool false); match_number;
    scan_literal "NaN" (JFloat "NaN"); scan_literal "Infinity" (JFloat "Infinity");
    scan_literal "-Infinity" (JFloat "-Infinity") ].

Definition scan_scalar (s : string) : scan json := first_match scalars s.

(** [scan_once]: one JSON value at the head of [s]. *)
Fixpoint scan_once (fuel : nat) (s : string) : scan json :=
  match fuel with
  | 0 => Exhausted
  | S fuel' =>
      match s with
      | EmptyString => Malformed
      | String c rest =>
          if Ascii.eqb c DQUOTE then
            match scanstring rest with
            | Some (str, rest') => Scanned (JString str) rest'
            | None => Malformed
            end
          else if Ascii.eqb c "{" then
            match skip_ws rest with
            | String d rest' =>
                if Ascii.eqb d "}" then Scanned (JObject []) rest'
                else JSONObject_loop (scan_once fuel') fuel' (skip_ws rest) []
            | EmptyString => Malformed
            end
          else if Ascii.eqb c "[" then
            match skip_ws rest with
            | String d rest' =>
                if Ascii.eqb d "]" then Scanned (JArray []) rest'
                else JSONArray_loop (scan_once fuel') fuel' (skip_ws rest) []
            | EmptyString => Malformed
            end
          else scan_scalar s
      end
  end.

(** [json.loads(s)] for a [str] argument: leading white space, one value,
    trailing white space, end of input.  [None] stands for a raised
    [json.JSONDecodeError]. *)
Definition json_loads (s : string) : option json :=
  let s0 := skip_ws s in
  match scan_once (S (String.length s0)) s0 with
  | Scanned v rest =>
      match skip_ws rest with
      | EmptyString => Some v
      | String _ _ => None
      end
  | Malformed | Exhausted => None
  end.

(** Test inputs are written with apostrophes where JSON has double quotes. *)
Fixpoint dq (s : string) : string :=
  match s with
  | EmptyString => EmptyString
  | String c rest => String (if Ascii.eqb c "'" then DQUOTE else c) (dq rest)
  end.

(** ** Python runtime: standard output

    Each [print] statement of the script is one message constructor, with
    the values its format string interpolates.  The progress bar of [tqdm]
    goes to standard error and has no effect on control flow; it is not
    part of the model. *)
Inductive message :=
  | Msg_data_dir (data_dir : option string)
      (* load_dir: print(data_dir) *)
  | Msg_checking (dirlang : string) (langdir_exists langdir_isdir : bool)
      (* "Checking directory: {dirlang} (Exists: ..., IsDir: ...)" *)
  | Msg_loading (dirlang : string)
      (* "Loading data from {dirlang}..." *)
  | Msg_absent (dirlang : string)
      (* "Directory {dirlang} does not exist or is not a directory." *)
  | Msg_summary (n_langs n_files : nat)
      (* "Loaded data: {n_langs} languages with {n_files} files." *)
  | Msg_success (data_dir : option string)
      (* "Data loaded successfully from {data_dir}." *)
  | Msg_set_of_keys (keys : gset string)
      (* "Set of keys: {set_of_keys}" *)
  | Msg_missing_keys (keys : gset string).
      (* "Missing keys: {missing_keys}" *)

Global Instance message_eq_dec : EqDecision message.
Proof. solve_decision. Defined.

(** A computation that prints, then raises or returns.  What was printed
    before an exception stays printed. *)
Definition io (A : Type) : Type := list message * result A.

Definition io_ret {A} (a : A) : io A := ([], inr a).
Definition io_raise {A} (e : exn) : io A := ([], inl e).
Definition io_lift {A} (r : result A) : io A := ([], r).
Definition print (m : message) : io unit := ([m], inr tt).

Definition io_bind {A B} (m : io A) (f : A → io B) : io B :=
  match m with
  | (out, inl e) => (out, inl e)
  | (out, inr a) => let '(out', r) := f a in ((out ++ out')%list, r)
  end.

Notation "x ←io m ; k" := (io_bind m (λ x, k))
  (at level 100, m at next level, k at level 200, right associativity,
   format "x  ←io  m ;  '/' k").
Notation "m ;;io k" := (io_bind m (λ _, k))
  (at level 100, k at level 200, right associativity,
   format "m  ;;io  '/' k").

(** A [for] loop threading an accumulator: stops at the first exception. *)
Fixpoint rfoldl {A B} (f : A → B → result A) (a : A) (l : list B) : result A :=
  match l with
  | [] => ret a
  | b :: l => a' ←r f a b ; rfoldl f a' l
  end.

Fixpoint io_foldl {A B} (f : A → B → io A) (a : A) (l : list B) : io A :=
  match l with
  | [] => io_ret a
  | b :: l => a' ←io f a b ; io_foldl f a' l
  end.

(** ** The script: data model *)

(** One parsed line of an input file. *)
Abbreviation record := json.

(** Filename to records, for one language directory. *)
Abbreviation files := (gmap string (list record)).

(** Language directory name to files.  The script's dictionaries keep
    insertion order; nothing it returns depends on that order, and the
    model keeps finite maps. *)
Abbreviation corpus := (gmap string (gmap string (list record))).

(** ** The script: [load_json_file] *)

(** [p and not os.path.exists(p)] *)
Definition given_but_missing (fs : filesystem) (p : option string) : bool :=
  match p with
  | None => false
  | Some p => negb (String.eqb p "") && negb (os_path_exists fs p)
  end.

(** [[json.loads(line) for line in json_in]] *)
Fixpoint loads_lines (lines : list string) : result (list record) :=
  match lines with
  | [] => ret []
  | line :: rest =>
      match json_loads line with
      | None => raise JSONDecodeError
      | Some r => records ←r loads_lines rest ; ret (r :: records)
      end
  end.

Definition load_json_file (fs : filesystem) (json_filename : option string)
    : result (list record) :=
  if given_but_missing fs json_filename then raise FileNotFoundError
  else lines ←r open_lines fs json_filename ; loads_lines lines.

(** ** The script: [load_dir] *)

(** [n_files is None or k < n_files] *)
Definition within_cap (n_files : option Z) (k : nat) : bool :=
  match n_files with
  | None => true
  | Some n => (Z.of_nat k <? n)%Z
  end.

(** The dictionary comprehension over [enumerate(os.listdir(data_dir))]:
    [k] counts every enumerated entry. *)
Fixpoint load_dir_entries (fs : filesystem) (data_dir : option string)
    (n_files : option Z) (k : nat) (entries : list string) (acc : files)
    : result files :=
  match entries with
  | [] => ret acc
  | fname :: rest =>
      if str_endswith fname ".jsonl" && within_cap n_files k then
        path ←r os_path_join data_dir fname ;
        records ←r load_json_file fs (Some path) ;
        load_dir_entries fs data_dir n_files (S k) rest (<[fname := records]> acc)
      else load_dir_entries fs data_dir n_files (S k) rest acc
  end.

Definition load_dir (fs : filesystem) (data_dir : option string)
    (n_files : option Z) : io files :=
  print (Msg_data_dir data_dir) ;;io
  if given_but_missing fs data_dir then io_raise FileNotFoundError
  else io_lift (entries ←r os_listdir fs data_dir ;
                load_dir_entries fs data_dir n_files 0 entries ∅).

(** ** The script: [load_all_data] *)

(** The values a caller may pass as [dir_lang_options]. *)
Inductive pyobj :=
  | Py_None
  | Py_str (s : string)
  | Py_tuple (items : list string)
  | Py_list (items : list string).

(** Truth value of an object. *)
Definition py_truth (o : pyobj) : bool :=
  match o with
  | Py_None => false
  | Py_str s => negb (String.eqb s "")
  | Py_tuple items | Py_list items => negb (Nat.eqb (length items) 0)
  end.

(** [isinstance(o, list)] *)
Definition isinstance_list (o : pyobj) : bool :=
  match o with
  | Py_list _ => true
  | _ => false
  end.

(** The items a [for] loop over the object visits. *)
Definition py_iter (o : pyobj) : result (list string) :=
  match o with
  | Py_None => raise TypeError
  | Py_str s => ret ((λ c, String c "") <$> list_ascii_of_string s)
  | Py_tuple items | Py_list items => ret items
  end.

(** [if k not in d: d[k] = {}] *)
Definition ensure_entry (lang_dir : string) (loaded_data : corpus) : corpus :=
  match loaded_data !! lang_dir with
  | Some _ => loaded_data
  | None => <[lang_dir := ∅]> loaded_data
  end.

(** One iteration of the loop over [dir_lang_options]. *)
Definition load_lang (fs : filesystem) (data_dir : option string)
    (n_files : option Z) (loaded_data : corpus) (lang_dir : string) : io corpus :=
  let loaded_data := ensure_entry lang_dir loaded_data in
  dirlang ←io io_lift (os_path_join data_dir lang_dir) ;
  let langdir_exists := os_path_exists fs dirlang in
  let langdir_isdir := os_path_isdir fs dirlang in
  print (Msg_checking dirlang langdir_exists langdir_isdir) ;;io
  if langdir_exists && langdir_isdir then
    print (Msg_loading dirlang) ;;io
    let loaded_data := ensure_entry lang_dir loaded_data in
    match loaded_data !! lang_dir with
    | None => io_raise KeyError
    | Some loaded =>
        if Nat.eqb (size loaded) 0 then
          loaded' ←io load_dir fs (Some dirlang) n_files ;
          io_ret (<[lang_dir := loaded']> loaded_data)
        else io_ret loaded_data
    end
  else
    print (Msg_absent dirlang) ;;io
    io_ret loaded_data.

(** [sum(len(v) for v in loaded_data.values())] *)
Definition count_files (loaded_data : corpus) : nat :=
  map_fold (λ _ v acc, size v + acc) 0 loaded_data.

Definition load_all_data (fs : filesystem) (data_dir : option string)
    (dir_lang_options : pyobj) (n_files : option Z) : io corpus :=
  if negb (truthy data_dir) || negb (from_option (os_path_exists fs) false data_dir)
  then io_raise FileNotFoundError
  else if negb (py_truth dir_lang_options) || negb (isinstance_list dir_lang_options)
  then io_raise ValueError
  else
    names ←io io_lift (py_iter dir_lang_options) ;
    loaded_data ←io io_foldl (load_lang fs data_dir n_files) ∅ names ;
    print (Msg_summary (size loaded_data) (count_files loaded_data)) ;;io
    print (Msg_success data_dir) ;;io
    io_ret loaded_data.

(** ** The script: [identify_missing_keys] *)

(** [entry.keys()]: only a [dict] has the method. *)
Definition entry_keys (entry : record) : result (gset string) :=
  match entry with
  | JObject members => ret (list_to_set members.*1)
  | _ => raise AttributeError
  end.

(** The three nested [for] loops, running [body] on every entry. *)
Definition for_each_entry {A} (body : A → record → result A) (a : A)
    (loaded_data : corpus) : result A :=
  rfoldl (λ a lang_files,
    rfoldl (λ a name_entries, rfoldl body a name_entries.2)
      a (map_to_list lang_files.2))
    a (map_to_list loaded_data).

Definition identify_missing_keys (loaded_data : corpus)
    : io (gset string * gset string) :=
  set_of_keys ←io io_lift (for_each_entry
    (λ set_of_keys entry,
       keys ←r entry_keys entry ; ret (set_of_keys ∪ keys))
    ∅ loaded_data) ;
  missing_keys ←io io_lift (for_each_entry
    (λ missing_keys entry,
       keys ←r entry_keys entry ;
       ret (missing_keys ∪ filter (λ key, key ∉ keys) set_of_keys))
    ∅ loaded_data) ;
  print (Msg_set_of_keys set_of_keys) ;;io
  print (Msg_missing_keys missing_keys) ;;io
  io_ret (set_of_keys, missing_keys).

(** ** Example inputs *)

Definition nl (line : string) : string := line ++ String LF "".

(** A data root with a language directory holding two well-formed files,
    an empty language directory, a directory that lists a stray text file
    before its data file, and a file with an empty line in the middle. *)
Definition example_fs : filesystem :=
  list_to_map
    [ ("data", Dir ["en"; "de"; "mixed"; "gap"; "README"]);
      ("data/README", File (nl "not a directory"));
      ("data/en", Dir ["a.jsonl"; "b.jsonl"]);
      ("data/en/a.jsonl",
        File (nl (dq "{'id': 1, 'name': 'x'}") ++ nl (dq "{'name': 'y'}")));
      ("data/en/b.jsonl", File (dq "{'id': 2, 'name': 'z'}"));
      ("data/de", Dir []);
      ("data/mixed", Dir ["notes.txt"; "a.jsonl"]);
      ("data/mixed/notes.txt", File (nl "hello"));
      ("data/mixed/a.jsonl", File (nl (dq "{'id': 3}")));
      ("data/gap", Dir ["x.jsonl"]);
      ("data/gap/x.jsonl", File (nl "{}" ++ nl "" ++ nl "{}")) ].

(** ** Vocabulary of the statements *)

(** A scanner that returns has used up at least one character. *)
Definition consumes (scanner : string → scan json) : Prop :=
  ∀ s v rest, scanner s = Scanned v rest → (String.length rest < String.length s)%nat.

(** A line holding nothing but white space: what is left of an empty line. *)
Definition is_blank (line : string) : bool :=
  forallb is_ws (list_ascii_of_string line).

(** What the sentence of the specification describes: the records of the
    non-empty lines, in order. *)
Definition records_of_nonempty_lines (text : string) : result (list record) :=
  loads_lines (filter (λ line, is_blank line = false)
                 (split_lines (universal_newlines text))).

(** The entries of a corpus in the order the nested loops visit them. *)
Definition corpus_entries (loaded_data : corpus) : list record :=
  map_to_list loaded_data ≫= λ lang_files,
    map_to_list lang_files.2 ≫= λ name_entries, name_entries.2.

(** [entry] is a record of some file of some language of the corpus. *)
Definition in_corpus (entry : record) (loaded_data : corpus) : Prop :=
  ∃ lang (loaded : files) filename entries,
    loaded_data !! lang = Some loaded ∧ loaded !! filename = Some entries
    ∧ entry ∈ entries.

(** [key in entry.keys()] for a record that is an object. *)
Definition has_key (key : string) (entry : record) : Prop :=
  match entry with
  | JObject members => key ∈ members.*1
  | _ => False
  end.

Definition is_object (entry : record) : bool :=
  match entry with
  | JObject _ => true
  | _ => false
  end.

(** A corpus with one file of two records, the second without [id]. *)
Definition example_corpus : corpus :=
  {[ "en" := {[ "a.jsonl" := [ JObject [("id", JInt 1); ("name", JString "x")];
                               JObject [("name", JString "y")] ] ]} ]}.

(** The subdirectory of a name is there and is a directory. *)
Definition present (fs : filesystem) (dirlang : string) : bool :=
  os_path_exists fs dirlang && os_path_isdir fs dirlang.

(** What the loop does to the entry of a name whose subdirectory is
    absent: it leaves it alone, or creates it empty. *)
Definition kept_or_created (lang_dir : string) (before after : corpus) : Prop :=
  after !! lang_dir = before !! lang_dir
  ∨ (before !! lang_dir = None ∧ after !! lang_dir = Some ∅).

(** [load_dir] starts by printing its directory, and nothing else prints
    that message: the number of calls of [load_dir] on a directory is the
    number of times the message is in the output. *)
Definition load_dir_calls (dirlang : string) (out : list message) : nat :=
  length (filter (λ m, m = Msg_data_dir (Some dirlang)) out).

Definition occurrences (name : string) (names : list string) : nat :=
  length (filter (λ other, other = name) names).

(** Calls of [load_dir] on the subdirectory of [name], whose load returns
    [loaded], still to come when walking [names] from [loaded_data]: one
    per occurrence while the stored mapping is empty, none once a
    non-empty mapping is stored. *)
Definition calls_to_come (name : string) (loaded : files) (loaded_data : corpus)
    (names : list string) : nat :=
  if Nat.eqb (size loaded) 0 then occurrences name names
  else match loaded_data !! name with
       | Some _ => 0
       | None => Nat.min 1 (occurrences name names)
       end.

(** ** Vocabulary of the further results *)

(** The value the comprehension of [load_dir] computes for a file name:
    [load_json_file(os.path.join(data_dir, fname))]. *)
Definition load_entry (fs : filesystem) (data_dir : option string) (fname : string)
    : result (list record) :=
  path ←r os_path_join data_dir fname ; load_json_file fs (Some path).

(** [fname] passes the filter of the comprehension at some position of an
    enumeration of [entries] that starts counting at [k]. *)
Fixpoint selected (n_files : option Z) (k : nat) (entries : list string)
    (fname : string) : bool :=
  match entries with
  | [] => false
  | entry :: entries =>
      String.eqb entry fname && (str_endswith entry ".jsonl" && within_cap n_files k)
      || selected n_files (S k) entries fname
  end.

(** One cap lets through at least what the other does. *)
Definition cap_le (n n' : option Z) : Prop :=
  match n, n' with
  | _, None => True
  | Some a, Some b => (a ≤ b)%Z
  | None, Some _ => False
  end.

(** The mapping [load_all_data] stores for a name: what [load_dir] returns
    on its subdirectory if that is present, the empty mapping if not. *)
Definition loaded_for (fs : filesystem) (data_dir : string) (n_files : option Z)
    (lang_dir : string) (loaded : files) : Prop :=
  ∃ dirlang, os_path_join (Some data_dir) lang_dir = inr dirlang
    ∧ if present fs dirlang
      then (load_dir fs (Some dirlang) n_files).2 = inr loaded
      else loaded = ∅.

(** The entries stored so far are those of the names visited so far. *)
Definition stores (fs : filesystem) (data_dir : string) (n_files : option Z)
    (seen : list string) (loaded_data : corpus) : Prop :=
  ∀ lang_dir loaded,
    loaded_data !! lang_dir = Some loaded ↔
    lang_dir ∈ seen ∧ loaded_for fs data_dir n_files lang_dir loaded.

(** The example file system with another text in the stray file. *)
Definition example_fs_edited : filesystem :=
  <["data/mixed/notes.txt" := File "edited"]> example_fs.

(** A file system whose current directory lists a data file. *)
Definition example_fs_cwd : filesystem :=
  list_to_map [ (".", Dir ["b.jsonl"; "c.txt"]); ("b.jsonl", File "{}") ].


(** ** The runtime model on examples *)

Example split_lines_ex :
  split_lines "a" = ["a"] ∧
  split_lines ("a" ++ String LF "b") = ["a" ++ String LF ""; "b"] ∧
  split_lines ("a" ++ String LF (String LF "")) = ["a" ++ String LF ""; String LF ""] ∧
  str_endswith "x.jsonl" ".jsonl" = true ∧
  str_endswith "jsonl" ".jsonl" = false ∧
  os_path_join (Some "data") "en" = inr "data/en" ∧
  os_path_join (Some "data/") "en" = inr "data/en" ∧
  os_path_join (Some "data") "/en" = inr "/en".
Proof. repeat split; reflexivity. Qed.

Example json_loads_ex :
  json_loads (dq "{'id': 7, 'tags': ['a', true, null], 'w': -1.5e3}")
    = Some (JObject [("id", JInt 7);
                     ("tags", JArray [JString "a"; JBool true; JNull]);
                     ("w", JFloat "-1.5e3")]) ∧
  json_loads (dq "{'a': 1, 'b': 2, 'a': 3}") = Some (JObject [("a", JInt 3); ("b", JInt 2)]) ∧
  json_loads (dq "'\u00e9\n'") = Some (JString (String "195" (String "169" (String LF "")))) ∧
  json_loads (String LF "") = None ∧
  json_loads "" = None ∧
  json_loads "[1,]" = None ∧
  json_loads "01" = None ∧
  json_loads "-" = None ∧
  json_loads "{} {}" = None ∧
  json_loads (" [ ] " ++ String LF "") = Some (JArray []).
Proof. repeat split; vm_compute; reflexivity. Qed.

(** ** [json.loads]: the recursion budget is enough *)

Lemma skip_ws_length (s : string) : (String.length (skip_ws s) ≤ String.length s)%nat.
Proof.
  induction s as [|c s IH]; simpl; [lia|]. destruct (is_ws c); simpl; lia.
Qed.

Lemma prepend_Some chunk r body rest :
  prepend chunk r = Some (body, rest) → ∃ body', r = Some (body', rest).
Proof. destruct r as [[body' rest']|]; simpl; [|done]. intros [= _ <-]. by eexists. Qed.

Ltac break_match_in H :=
  match type of H with
  | context [if ?b then _ else _] => destruct b
  | context [match ?x with _ => _ end] => destruct x
  end.

Lemma scanstring_length (s body rest : string) :
  scanstring s = Some (body, rest) → (String.length rest < String.length s)%nat.
Proof.
  remember (String.length s) as n eqn:Hn. revert s body rest Hn.
  induction n as [n IH] using lt_wf_ind. intros s body rest -> Hscan.
  assert (∀ chunk s', prepend chunk (scanstring s') = Some (body, rest) →
            (String.length s' < String.length s)%nat →
            (String.length rest < String.length s)%nat) as Hrec.
  { intros chunk s' [body' Hs']%prepend_Some Hlt.
    specialize (IH _ Hlt s' body' rest eq_refl Hs'). lia. }
  destruct s as [|c s]; [discriminate|]. cbn [scanstring] in Hscan.
  repeat first [ discriminate Hscan
               | injection Hscan as <- <-; cbn [String.length]; lia
               | apply Hrec in Hscan; [exact Hscan | cbn [String.length]; lia]
               | break_match_in Hscan ].
Qed.

Lemma span_digits_length (s ds rest : string) :
  span_digits s = (ds, rest) →
  (String.length ds + String.length rest = String.length s)%nat.
Proof.
  revert ds rest. induction s as [|c s IH]; intros ds rest; simpl.
  - by intros [= <- <-].
  - destruct (is_digit c); [|by intros [= <- <-]].
    destruct (span_digits s) as [ds' rest'] eqn:Hspan. intros [= <- <-].
    specialize (IH _ _ eq_refl). simpl. lia.
Qed.

Lemma strip_prefix_length (p s rest : string) :
  strip_prefix p s = Some rest →
  (String.length p + String.length rest = String.length s)%nat.
Proof.
  revert s. induction p as [|a p IH]; intros s; simpl; [by intros [= ->]|].
  destruct s as [|b s]; [discriminate|]. destruct (Ascii.eqb a b); [|discriminate].
  intros Hstrip%IH. simpl. lia.
Qed.

Lemma match_integer_length (s lexeme rest : string) :
  match_integer s = Some (lexeme, rest) → (String.length rest < String.length s)%nat.
Proof.
  unfold match_integer.
  destruct s as [|c r]; [discriminate|].
  destruct (Ascii.eqb c "-").
  - destruct r as [|c' r']; [discriminate|]. intros Hmatch.
    destruct (Ascii.eqb c' "0").
    + injection Hmatch as <- <-. simpl. lia.
    + destruct (is_digit c') eqn:Hc'; [|discriminate].
      destruct (span_digits (String c' r')) as [ds r''] eqn:Hspan.
      injection Hmatch as <- <-. apply span_digits_length in Hspan. simpl in *. lia.
  - intros Hmatch. destruct (Ascii.eqb c "0").
    + injection Hmatch as <- <-. simpl. lia.
    + destruct (is_digit c) eqn:Hc; [|discriminate].
      destruct (span_digits (String c r)) as [ds r''] eqn:Hspan.
      injection Hmatch as <- <-. apply span_digits_length in Hspan as Hlen.
      simpl in Hspan. rewrite Hc in Hspan. destruct (span_digits r).
      injection Hspan as <- <-. simpl in *. lia.
Qed.

Lemma match_fraction_length (s lexeme rest : string) :
  match_fraction s = Some (lexeme, rest) → (String.length rest ≤ String.length s)%nat.
Proof.
  unfold match_fraction. destruct s as [|c r]; [discriminate|].
  destruct (Ascii.eqb c "."); [|discriminate].
  destruct (span_digits r) as [ds r'] eqn:Hspan. apply span_digits_length in Hspan.
  destruct ds; [discriminate|]. intros [= _ <-]. simpl in *. lia.
Qed.

Lemma match_exponent_length (s lexeme rest : string) :
  match_exponent s = Some (lexeme, rest) → (String.length rest ≤ String.length s)%nat.
Proof.
  unfold match_exponent. destruct s as [|c r]; [discriminate|].
  destruct (Ascii.eqb c "e" || Ascii.eqb c "E"); [|discriminate].
  destruct r as [|d r0].
  - simpl. discriminate.
  - destruct (Ascii.eqb d "-" || Ascii.eqb d "+").
    + destruct (span_digits r0) as [ds r'] eqn:Hspan. apply span_digits_length in Hspan.
      destruct ds; [discriminate|]. intros [= _ <-]. simpl in *. lia.
    + destruct (span_digits (String d r0)) as [ds r'] eqn:Hspan.
      apply span_digits_length in Hspan.
      destruct ds; [discriminate|]. intros [= _ <-]. simpl in *. lia.
Qed.

Lemma match_number_length (s : string) (v : json) (rest : string) :
  match_number s = Some (v, rest) → (String.length rest < String.length s)%nat.
Proof.
  unfold match_number.
  destruct (match_integer s) as [[integer r1]|] eqn:Hint; [|discriminate].
  apply match_integer_length in Hint.
  destruct (match_fraction r1) as [[frac r2]|] eqn:Hfrac;
    [apply match_fraction_length in Hfrac|];
    (destruct (match_exponent _) as [[exp r3]|] eqn:Hexp;
      [apply match_exponent_length in Hexp|]);
    (destruct (_ && _); intros [= _ <-]; lia).
Qed.

Lemma scan_literal_length (lit : string) (v v' : json) (s rest : string) :
  lit ≠ "" → scan_literal lit v s = Some (v', rest) →
  (String.length rest < String.length s)%nat.
Proof.
  intros Hlit. unfold scan_literal.
  destruct (strip_prefix lit s) as [r|] eqn:Hstrip; [|discriminate].
  intros [= _ <-]. apply strip_prefix_length in Hstrip.
  destruct lit; [done|]. simpl in Hstrip. lia.
Qed.


Lemma first_match_consumes (alternatives : list (string → option (json * string))) :
  Forall (λ alternative, ∀ s v rest, alternative s = Some (v, rest) →
                           (String.length rest < String.length s)%nat) alternatives →
  consumes (first_match alternatives).
Proof.
  induction 1 as [|alternative alternatives Hhead _ IH]; intros s v rest; simpl;
    [discriminate|].
  destruct (alternative s) as [[v' rest']|] eqn:Halt; [|apply IH].
  intros [= <- <-]. by eapply Hhead.
Qed.

Lemma scan_scalar_consumes : consumes scan_scalar.
Proof.
  apply first_match_consumes. unfold scalars.
  repeat (apply Forall_cons; split;
            [first [ intros s v rest; apply match_number_length
                   | intros s v rest; by apply scan_literal_length ]|]).
  apply Forall_nil_2.
Qed.

Lemma JSONArray_loop_consumes (scanner : string → scan json) (fuel : nat) :
  consumes scanner → ∀ values, consumes (λ s, JSONArray_loop scanner fuel s values).
Proof.
  intros Hscanner. induction fuel as [|fuel IH]; intros values s v rest; simpl;
    [discriminate|].
  destruct (scanner s) as [value s1| |] eqn:Hvalue; [|discriminate..].
  apply Hscanner in Hvalue. pose proof (skip_ws_length s1) as Hs1.
  destruct (skip_ws s1) as [|c s2]; [discriminate|].
  destruct (Ascii.eqb c "]"); [intros [= _ <-]; simpl in Hs1; lia|].
  destruct (Ascii.eqb c ","); [|discriminate].
  intros Hrest%IH. pose proof (skip_ws_length s2). simpl in Hs1. lia.
Qed.

Lemma JSONObject_loop_consumes (scanner : string → scan json) (fuel : nat) :
  consumes scanner → ∀ pairs, consumes (λ s, JSONObject_loop scanner fuel s pairs).
Proof.
  intros Hscanner. induction fuel as [|fuel IH]; intros pairs s v rest; simpl;
    [discriminate|].
  destruct s as [|q s0]; [discriminate|].
  destruct (Ascii.eqb q DQUOTE); [|discriminate].
  destruct (scanstring s0) as [[key s1]|] eqn:Hkey; [|discriminate].
  apply scanstring_length in Hkey. pose proof (skip_ws_length s1) as Hs1.
  destruct (skip_ws s1) as [|c s2]; [discriminate|].
  destruct (Ascii.eqb c ":"); [|discriminate].
  pose proof (skip_ws_length s2) as Hs2.
  destruct (scanner (skip_ws s2)) as [value s3| |] eqn:Hvalue; [|discriminate..].
  apply Hscanner in Hvalue. pose proof (skip_ws_length s3) as Hs3.
  destruct (skip_ws s3) as [|d s4]; [discriminate|].
  destruct (Ascii.eqb d "}"); [intros [= _ <-]; simpl in *; lia|].
  destruct (Ascii.eqb d ","); [|discriminate].
  intros Hrest%IH. pose proof (skip_ws_length s4). simpl in *. lia.
Qed.

Lemma scan_once_consumes (fuel : nat) : consumes (scan_once fuel).
Proof.
  induction fuel as [|fuel IH]; intros s v rest; simpl; [discriminate|].
  destruct s as [|c s0]; [discriminate|].
  destruct (Ascii.eqb c DQUOTE).
  { destruct (scanstring s0) as [[str rest']|] eqn:Hstr; [|discriminate].
    intros [= _ <-]. apply scanstring_length in Hstr. simpl. lia. }
  pose proof (skip_ws_length s0) as Hs0.
  destruct (Ascii.eqb c "{").
  { destruct (skip_ws s0) as [|d rest'] eqn:Hskip; [discriminate|].
    destruct (Ascii.eqb d "}"); [intros [= _ <-]; simpl in *; lia|].
    intros Hobj%(JSONObject_loop_consumes _ _ IH). simpl in *. lia. }
  destruct (Ascii.eqb c "[").
  { destruct (skip_ws s0) as [|d rest'] eqn:Hskip; [discriminate|].
    destruct (Ascii.eqb d "]"); [intros [= _ <-]; simpl in *; lia|].
    intros Harr%(JSONArray_loop_consumes _ _ IH). simpl in *. lia. }
  apply scan_scalar_consumes.
Qed.

Lemma JSONArray_loop_fuel (scanner : string → scan json) (bound fuel : nat) :
  consumes scanner →
  (∀ s, (String.length s < bound)%nat → scanner s ≠ Exhausted) →
  ∀ s values, (String.length s < fuel)%nat → (String.length s < bound)%nat →
    JSONArray_loop scanner fuel s values ≠ Exhausted.
Proof.
  intros Hconsumes Hscanner. induction fuel as [|fuel IH]; intros s values Hfuel Hbound;
    [lia|].
  simpl. destruct (scanner s) as [value s1| |] eqn:Hvalue;
    [|discriminate | by apply Hscanner in Hvalue].
  apply Hconsumes in Hvalue. pose proof (skip_ws_length s1) as Hs1.
  destruct (skip_ws s1) as [|c s2]; [discriminate|].
  destruct (Ascii.eqb c "]"); [discriminate|].
  destruct (Ascii.eqb c ","); [|discriminate].
  pose proof (skip_ws_length s2). simpl in Hs1. apply IH; lia.
Qed.

Lemma JSONObject_loop_fuel (scanner : string → scan json) (bound fuel : nat) :
  consumes scanner →
  (∀ s, (String.length s < bound)%nat → scanner s ≠ Exhausted) →
  ∀ s pairs, (String.length s < fuel)%nat → (String.length s < bound)%nat →
    JSONObject_loop scanner fuel s pairs ≠ Exhausted.
Proof.
  intros Hconsumes Hscanner. induction fuel as [|fuel IH]; intros s pairs Hfuel Hbound;
    [lia|].
  simpl. destruct s as [|q s0]; [discriminate|].
  destruct (Ascii.eqb q DQUOTE); [|discriminate].
  destruct (scanstring s0) as [[key s1]|] eqn:Hkey; [|discriminate].
  apply scanstring_length in Hkey. pose proof (skip_ws_length s1) as Hs1.
  destruct (skip_ws s1) as [|c s2]; [discriminate|].
  destruct (Ascii.eqb c ":"); [|discriminate].
  pose proof (skip_ws_length s2) as Hs2. simpl in Hfuel, Hbound, Hs1.
  destruct (scanner (skip_ws s2)) as [value s3| |] eqn:Hvalue;
    [|discriminate | apply Hscanner in Hvalue; [done | lia]].
  apply Hconsumes in Hvalue. pose proof (skip_ws_length s3) as Hs3.
  destruct (skip_ws s3) as [|d s4]; [discriminate|].
  destruct (Ascii.eqb d "}"); [discriminate|].
  destruct (Ascii.eqb d ","); [|discriminate].
  pose proof (skip_ws_length s4). simpl in Hs3. apply IH; lia.
Qed.

Lemma first_match_not_exhausted alternatives (s : string) :
  first_match alternatives s ≠ Exhausted.
Proof.
  induction alternatives as [|alternative alternatives IH]; simpl; [discriminate|].
  by destruct (alternative s) as [[v rest]|].
Qed.

(** A budget above the length of the input is never used up. *)
Lemma scan_once_fuel (fuel : nat) (s : string) :
  (String.length s < fuel)%nat → scan_once fuel s ≠ Exhausted.
Proof.
  revert s. induction fuel as [|fuel IH]; intros s Hfuel; [lia|].
  simpl. destruct s as [|c s0]; [discriminate|]. simpl in Hfuel.
  destruct (Ascii.eqb c DQUOTE); [by destruct (scanstring s0) as [[str rest]|]|].
  pose proof (skip_ws_length s0) as Hs0.
  destruct (Ascii.eqb c "{").
  { destruct (skip_ws s0) as [|d rest'] eqn:Hskip; [discriminate|].
    destruct (Ascii.eqb d "}"); [discriminate|].
    apply (JSONObject_loop_fuel _ fuel); [apply scan_once_consumes | exact IH | lia..]. }
  destruct (Ascii.eqb c "[").
  { destruct (skip_ws s0) as [|d rest'] eqn:Hskip; [discriminate|].
    destruct (Ascii.eqb d "]"); [discriminate|].
    apply (JSONArray_loop_fuel _ fuel); [apply scan_once_consumes | exact IH | lia..]. }
  apply first_match_not_exhausted.
Qed.

(** [json_loads] never stops for lack of budget: its [None] is always a
    [JSONDecodeError] of the decoder. *)
Lemma json_loads_fuel (s : string) :
  scan_once (S (String.length (skip_ws s))) (skip_ws s) ≠ Exhausted.
Proof. apply scan_once_fuel. lia. Qed.

(** ** Results about [load_all_data]: argument checks *)

(** C5: when the root directory argument is missing, empty, or names a
    path that does not exist, [load_all_data] raises [FileNotFoundError]
    before printing anything, whatever the other arguments are; it does not
    return a mapping, in particular not an empty one. *)
Theorem load_all_data_root_not_found (fs : filesystem) (data_dir : option string)
    (dir_lang_options : pyobj) (n_files : option Z) :
  (∀ p, data_dir = Some p → p = "" ∨ os_path_exists fs p = false) →
  load_all_data fs data_dir dir_lang_options n_files = ([], inl FileNotFoundError)
  ∧ ∀ out (loaded_data : corpus),
      load_all_data fs data_dir dir_lang_options n_files ≠ (out, inr loaded_data).
Proof.
  intros Hroot.
  assert (load_all_data fs data_dir dir_lang_options n_files
          = ([], inl FileNotFoundError)) as Heq.
  { unfold load_all_data.
    destruct data_dir as [p|]; [|reflexivity].
    destruct (Hroot p eq_refl) as [-> | Hmissing]; [reflexivity|].
    simpl. rewrite Hmissing. simpl. by rewrite orb_true_r. }
  split; [exact Heq|].
  intros out loaded_data. rewrite Heq. discriminate.
Qed.

Lemma load_all_data_root_not_found_witness :
  (∀ p, Some "nowhere" = Some p → p = "" ∨ os_path_exists example_fs p = false)
  ∧ load_all_data example_fs (Some "nowhere") (Py_list ["en"]) None
    = ([], inl FileNotFoundError).
Proof.
  split.
  - intros p [= <-]. right. reflexivity.
  - apply (load_all_data_root_not_found example_fs (Some "nowhere") (Py_list ["en"]) None).
    intros p [= <-]. right. reflexivity.
Defined.

(** C6: with an existing root directory, any [dir_lang_options] that is
    not a list (nothing, a single string, a tuple) makes [load_all_data]
    raise [ValueError] before any directory is inspected or loaded. *)
Theorem load_all_data_options_not_a_list (fs : filesystem) (data_dir : string)
    (dir_lang_options : pyobj) (n_files : option Z) :
  os_path_exists fs data_dir = true →
  (∀ items, dir_lang_options ≠ Py_list items) →
  load_all_data fs (Some data_dir) dir_lang_options n_files = ([], inl ValueError).
Proof.
  intros Hroot Hnot_list. unfold load_all_data.
  assert (String.eqb data_dir "" = false) as Hne.
  { destruct (String.eqb_spec data_dir ""); [subst; discriminate | done]. }
  simpl. rewrite Hne, Hroot. simpl.
  destruct dir_lang_options as [|s|items|items]; simpl;
    rewrite ?orb_true_r; try reflexivity.
  by destruct (Hnot_list items).
Qed.

Lemma load_all_data_options_not_a_list_witness :
  os_path_exists example_fs "data" = true
  ∧ (∀ items, Py_str "en" ≠ Py_list items)
  ∧ load_all_data example_fs (Some "data") (Py_str "en") (Some 1%Z)
    = ([], inl ValueError).
Proof.
  split; [reflexivity|]. split; [discriminate|].
  apply (load_all_data_options_not_a_list example_fs "data" (Py_str "en") (Some 1%Z)).
  - reflexivity.
  - discriminate.
Defined.

(** C7, as the claim states it, fails: with an existing root and an empty
    list of names the exception raised is not [FileNotFoundError]. *)
Lemma load_all_data_empty_options_counterexample :
  os_path_exists example_fs "data" = true
  ∧ (load_all_data example_fs (Some "data") (Py_list []) None).2
    ≠ inl FileNotFoundError.
Proof. split; [reflexivity | vm_compute; discriminate]. Qed.

(** C7 (amended): with an existing root directory and an empty list of
    names, [load_all_data] raises [ValueError], the same condition as for
    an argument that is not a list. *)
Theorem load_all_data_empty_options (fs : filesystem) (data_dir : string)
    (n_files : option Z) :
  os_path_exists fs data_dir = true →
  load_all_data fs (Some data_dir) (Py_list []) n_files = ([], inl ValueError).
Proof.
  intros Hroot. unfold load_all_data.
  assert (String.eqb data_dir "" = false) as Hne.
  { destruct (String.eqb_spec data_dir ""); [subst; discriminate | done]. }
  simpl. by rewrite Hne, Hroot.
Qed.

Lemma load_all_data_empty_options_witness :
  os_path_exists example_fs "data" = true
  ∧ load_all_data example_fs (Some "data") (Py_list []) None = ([], inl ValueError).
Proof.
  split; [reflexivity|].
  apply (load_all_data_empty_options example_fs "data" None). reflexivity.
Defined.

(** ** Results about [load_json_file] *)

Lemma loads_lines_malformed (lines : list string) :
  (∃ line, line ∈ lines ∧ json_loads line = None) →
  loads_lines lines = inl JSONDecodeError.
Proof.
  intros (line & Hin & Hbad).
  induction lines as [|l lines IH]; [by apply elem_of_nil in Hin|].
  simpl. destruct (json_loads l) as [r|] eqn:Hl; [|reflexivity].
  apply elem_of_cons in Hin as [-> | Hin]; [congruence|].
  by rewrite (IH Hin).
Qed.

Lemma loads_lines_wellformed (lines : list string) :
  (∀ line, line ∈ lines → is_Some (json_loads line)) →
  ∃ records, loads_lines lines = inr records
             ∧ Forall2 (λ line r, json_loads line = Some r) lines records.
Proof.
  induction lines as [|l lines IH]; intros Hall.
  - exists []. split; [reflexivity | constructor].
  - destruct (Hall l) as [r Hr]; [left|].
    destruct IH as (records & Heq & Hrel).
    { intros line Hin. apply Hall. by right. }
    exists (r :: records). simpl. rewrite Hr, Heq. split; [reflexivity|].
    by constructor.
Qed.

Lemma load_json_file_open (fs : filesystem) (p text : string) :
  fs_lookup fs p = Some (File text) →
  load_json_file fs (Some p) = loads_lines (split_lines (universal_newlines text)).
Proof.
  intros Hfile. unfold load_json_file, given_but_missing, os_path_exists, open_lines.
  rewrite Hfile. by rewrite andb_false_r.
Qed.

(** C3: for an existing file one of whose lines [json.loads] rejects,
    [load_json_file] raises the decoder's [JSONDecodeError]; it returns no
    record list at all, so none that leaves the line out. *)
Theorem load_json_file_malformed_line (fs : filesystem) (p text : string) :
  fs_lookup fs p = Some (File text) →
  (∃ line, line ∈ split_lines (universal_newlines text) ∧ json_loads line = None) →
  load_json_file fs (Some p) = inl JSONDecodeError
  ∧ ∀ records, load_json_file fs (Some p) ≠ inr records.
Proof.
  intros Hfile Hbad.
  rewrite (load_json_file_open _ _ _ Hfile), (loads_lines_malformed _ Hbad).
  split; [reflexivity | discriminate].
Qed.

Lemma skip_ws_blank (line : string) : is_blank line = true → skip_ws line = "".
Proof.
  unfold is_blank. induction line as [|c line IH]; [done|].
  simpl. intros [Hc Hrest]%andb_true_iff. rewrite Hc. by apply IH.
Qed.

Lemma json_loads_blank (line : string) : is_blank line = true → json_loads line = None.
Proof. intros Hblank. unfold json_loads. by rewrite (skip_ws_blank _ Hblank). Qed.

(** C4, as the claim states it, fails: a file with an empty line between
    two records does not load to those two records, the load fails. *)
Lemma load_json_file_empty_line_counterexample :
  fs_lookup example_fs "data/gap/x.jsonl" = Some (File (nl "{}" ++ nl "" ++ nl "{}"))
  ∧ records_of_nonempty_lines (nl "{}" ++ nl "" ++ nl "{}")
    = inr [JObject []; JObject []]
  ∧ load_json_file example_fs (Some "data/gap/x.jsonl") = inl JSONDecodeError
  ∧ load_json_file example_fs (Some "data/gap/x.jsonl")
    ≠ records_of_nonempty_lines (nl "{}" ++ nl "" ++ nl "{}").
Proof. repeat split; vm_compute; (reflexivity || discriminate). Qed.

(** C4 (amended): for an existing file all of whose lines [json.loads]
    accepts, [load_json_file] returns exactly one record per line, in the
    order of the lines, each the value of its line; a line that is empty or
    holds only white space is not accepted, and makes the load fail with
    [JSONDecodeError]. *)
Theorem load_json_file_one_record_per_line (fs : filesystem) (p text : string) :
  fs_lookup fs p = Some (File text) →
  let lines := split_lines (universal_newlines text) in
  ((∀ line, line ∈ lines → is_Some (json_loads line)) →
   ∃ records, load_json_file fs (Some p) = inr records
              ∧ length records = length lines
              ∧ ∀ i line, lines !! i = Some line → records !! i = json_loads line)
  ∧ ((∃ line, line ∈ lines ∧ is_blank line = true) →
     load_json_file fs (Some p) = inl JSONDecodeError).
Proof.
  intros Hfile lines. rewrite (load_json_file_open _ _ _ Hfile). fold lines. split.
  - intros Hall. destruct (loads_lines_wellformed _ Hall) as (records & Heq & Hrel).
    exists records. split; [done|]. split; [symmetry; by eapply Forall2_length|].
    intros i line Hline.
    destruct (Forall2_lookup_l _ _ _ _ _ Hrel Hline) as (r & Hr & Hparsed).
    by rewrite Hr, Hparsed.
  - intros (line & Hin & Hblank). apply loads_lines_malformed.
    exists line. split; [done|]. by apply json_loads_blank.
Qed.

Lemma load_json_file_one_record_per_line_witness :
  fs_lookup example_fs "data/en/a.jsonl"
    = Some (File (nl (dq "{'id': 1, 'name': 'x'}") ++ nl (dq "{'name': 'y'}")))
  ∧ ∃ records, load_json_file example_fs (Some "data/en/a.jsonl") = inr records
               ∧ length records = 2.
Proof.
  split; [reflexivity|].
  destruct (load_json_file_one_record_per_line example_fs "data/en/a.jsonl"
              (nl (dq "{'id': 1, 'name': 'x'}") ++ nl (dq "{'name': 'y'}")) eq_refl)
    as [Hgood _].
  destruct Hgood as (records & Heq & Hlen & _).
  - intros line Hin. vm_compute in Hin.
    apply elem_of_cons in Hin as [-> | Hin]; [by eexists|].
    apply elem_of_cons in Hin as [-> | Hin]; [by eexists|].
    by apply elem_of_nil in Hin.
  - exists records. split; [exact Heq | exact Hlen].
Defined.

Lemma load_json_file_malformed_line_witness :
  fs_lookup example_fs "data/gap/x.jsonl" = Some (File (nl "{}" ++ nl "" ++ nl "{}"))
  ∧ (∃ line, line ∈ split_lines (universal_newlines (nl "{}" ++ nl "" ++ nl "{}"))
             ∧ json_loads line = None)
  ∧ load_json_file example_fs (Some "data/gap/x.jsonl") = inl JSONDecodeError.
Proof.
  assert (∃ line, line ∈ split_lines (universal_newlines (nl "{}" ++ nl "" ++ nl "{}"))
                  ∧ json_loads line = None) as Hbad.
  { exists (nl ""). split; [|reflexivity]. vm_compute. right. left. }
  split; [reflexivity|]. split; [exact Hbad|].
  apply (load_json_file_malformed_line example_fs "data/gap/x.jsonl"
           (nl "{}" ++ nl "" ++ nl "{}") eq_refl Hbad).
Defined.

(** ** Results about [load_dir] *)

Lemma load_dir_entries_no_jsonl (fs : filesystem) (data_dir : option string)
    (n_files : option Z) (entries : list string) (k : nat) (acc : files) :
  (∀ fname, fname ∈ entries → str_endswith fname ".jsonl" = false) →
  load_dir_entries fs data_dir n_files k entries acc = inr acc.
Proof.
  revert k. induction entries as [|fname entries IH]; intros k Hnone; [reflexivity|].
  simpl. rewrite (Hnone fname) by left. simpl.
  apply IH. intros f Hf. apply Hnone. by right.
Qed.

(** C10: for an existing directory none of whose entries ends in
    [.jsonl], [load_dir] prints the directory and returns the empty
    mapping, for every cap. *)
Theorem load_dir_no_jsonl (fs : filesystem) (data_dir : string)
    (entries : list string) (n_files : option Z) :
  fs_lookup fs data_dir = Some (Dir entries) →
  (∀ fname, fname ∈ entries → str_endswith fname ".jsonl" = false) →
  load_dir fs (Some data_dir) n_files = ([Msg_data_dir (Some data_dir)], inr ∅).
Proof.
  intros Hdir Hnone.
  unfold load_dir, given_but_missing, os_path_exists, os_listdir. simpl.
  rewrite Hdir. rewrite andb_false_r. simpl.
  by rewrite (load_dir_entries_no_jsonl _ _ _ _ _ _ Hnone).
Qed.

Lemma load_dir_no_jsonl_witness :
  fs_lookup example_fs "data" = Some (Dir ["en"; "de"; "mixed"; "gap"; "README"])
  ∧ (∀ fname, fname ∈ ["en"; "de"; "mixed"; "gap"; "README"] →
       str_endswith fname ".jsonl" = false)
  ∧ load_dir example_fs (Some "data") (Some 2%Z)
    = ([Msg_data_dir (Some "data")], inr ∅).
Proof.
  assert (∀ fname, fname ∈ ["en"; "de"; "mixed"; "gap"; "README"] →
            str_endswith fname ".jsonl" = false) as Hnone.
  { intros fname Hin.
    repeat (apply elem_of_cons in Hin as [-> | Hin]; [reflexivity|]).
    by apply elem_of_nil in Hin. }
  split; [reflexivity|]. split; [exact Hnone|].
  apply (load_dir_no_jsonl example_fs "data" _ (Some 2%Z) eq_refl Hnone).
Defined.

(** Where the cap does count files: a directory that lists nothing but
    loadable [.jsonl] files. *)
Lemma load_dir_entries_cap (fs : filesystem) (data_dir : string) (n : nat)
    (entries : list string) (k : nat) (acc : files) :
  NoDup entries →
  (∀ fname, fname ∈ entries → acc !! fname = None) →
  (∀ fname, fname ∈ entries →
     str_endswith fname ".jsonl" = true
     ∧ ∃ path records, os_path_join (Some data_dir) fname = inr path
                       ∧ load_json_file fs (Some path) = inr records) →
  ∃ loaded,
    load_dir_entries fs (Some data_dir) (Some (Z.of_nat n)) k entries acc = inr loaded
    ∧ size loaded = (size acc + Nat.min (length entries) (n - k))%nat.
Proof.
  revert k acc. induction entries as [|fname entries IH]; intros k acc Hnodup Hfresh Hvalid.
  - exists acc. split; [reflexivity|]. simpl. lia.
  - apply NoDup_cons in Hnodup as [Hnotin Hnodup].
    destruct (Hvalid fname) as (Hjsonl & path & records & Hjoin & Hload); [left|].
    cbn [load_dir_entries]. rewrite Hjsonl. unfold within_cap.
    destruct (Z.ltb_spec (Z.of_nat k) (Z.of_nat n)) as [Hlt|Hge]; cbn [andb].
    + rewrite Hjoin. cbn [rbind]. rewrite Hload. cbn [rbind].
      destruct (IH (S k) (<[fname := records]> acc) Hnodup) as (loaded & Hrun & Hsize).
      { intros f Hf. rewrite lookup_insert_ne; [apply Hfresh; by right|].
        intros ->. done. }
      { intros f Hf. apply Hvalid. by right. }
      exists loaded. split; [exact Hrun|]. rewrite Hsize.
      rewrite map_size_insert_None by (apply Hfresh; left). cbn [length]. lia.
    + destruct (IH (S k) acc Hnodup) as (loaded & Hrun & Hsize).
      { intros f Hf. apply Hfresh. by right. }
      { intros f Hf. apply Hvalid. by right. }
      exists loaded. split; [exact Hrun|]. rewrite Hsize. cbn [length]. lia.
Qed.

Lemma load_dir_cap_jsonl_only (fs : filesystem) (data_dir : string)
    (entries : list string) (k : nat) :
  fs_lookup fs data_dir = Some (Dir entries) →
  NoDup entries →
  (∀ fname, fname ∈ entries →
     str_endswith fname ".jsonl" = true
     ∧ ∃ path records, os_path_join (Some data_dir) fname = inr path
                       ∧ load_json_file fs (Some path) = inr records) →
  (k ≤ length entries)%nat →
  ∃ loaded,
    load_dir fs (Some data_dir) (Some (Z.of_nat k))
    = ([Msg_data_dir (Some data_dir)], inr loaded)
    ∧ size loaded = k.
Proof.
  intros Hdir Hnodup Hvalid Hk.
  destruct (load_dir_entries_cap fs data_dir k entries 0 ∅ Hnodup) as (loaded & Hrun & Hsize);
    [intros; apply lookup_empty | exact Hvalid |].
  exists loaded. split.
  - unfold load_dir, given_but_missing, os_path_exists, os_listdir. simpl.
    rewrite Hdir. rewrite andb_false_r. simpl. by rewrite Hrun.
  - rewrite Hsize, map_size_empty. lia.
Qed.

(** C2, evaluated where it fails: [data/mixed] holds one well-formed
    [.jsonl] file, listed after a text file.  With a cap of one, the only
    index below the cap belongs to the text file, and [load_dir] returns no
    entry instead of one. *)
Theorem load_dir_cap_counts_other_entries :
  os_listdir example_fs (Some "data/mixed") = inr ["notes.txt"; "a.jsonl"]
  ∧ load_json_file example_fs (Some "data/mixed/a.jsonl") = inr [JObject [("id", JInt 3)]]
  ∧ load_dir example_fs (Some "data/mixed") None
    = ([Msg_data_dir (Some "data/mixed")],
       inr {[ "a.jsonl" := [JObject [("id", JInt 3)]] ]})
  ∧ load_dir example_fs (Some "data/mixed") (Some 1%Z)
    = ([Msg_data_dir (Some "data/mixed")], inr ∅)
  ∧ ∀ loaded, (load_dir example_fs (Some "data/mixed") (Some 1%Z)).2 = inr loaded →
              size loaded ≠ 1.
Proof.
  repeat split; try (vm_compute; reflexivity).
  intros loaded. vm_compute. intros [= <-]. discriminate.
Qed.

(** ** Results about [identify_missing_keys] *)

Lemma rfoldl_app {A B} (f : A → B → result A) (a : A) (l1 l2 : list B) :
  rfoldl f a (l1 ++ l2)%list = (a' ←r rfoldl f a l1 ; rfoldl f a' l2).
Proof.
  revert a. induction l1 as [|b l1 IH]; intros a; [reflexivity|].
  simpl. destruct (f a b) as [e|a']; simpl; [reflexivity | apply IH].
Qed.

Lemma rfoldl_ext {A B} (f g : A → B → result A) (a : A) (l : list B) :
  (∀ a b, f a b = g a b) → rfoldl f a l = rfoldl g a l.
Proof.
  intros Hfg. revert a. induction l as [|b l IH]; intros a; [reflexivity|].
  simpl. rewrite Hfg. destruct (g a b); simpl; [reflexivity | apply IH].
Qed.

Lemma rfoldl_bind {A B C} (g : A → C → result A) (h : B → list C) (a : A) (l : list B) :
  rfoldl (λ a x, rfoldl g a (h x)) a l = rfoldl g a (l ≫= h).
Proof.
  revert a. induction l as [|b l IH]; intros a; [reflexivity|].
  simpl. rewrite rfoldl_app.
  destruct (rfoldl g a (h b)) as [e|a']; simpl; [reflexivity | apply IH].
Qed.

Lemma for_each_entry_flat {A} (body : A → record → result A) (a : A)
    (loaded_data : corpus) :
  for_each_entry body a loaded_data = rfoldl body a (corpus_entries loaded_data).
Proof.
  unfold for_each_entry, corpus_entries.
  rewrite <- rfoldl_bind. apply rfoldl_ext. intros a' lang_files.
  apply rfoldl_bind.
Qed.

Lemma elem_of_corpus_entries (entry : record) (loaded_data : corpus) :
  entry ∈ corpus_entries loaded_data ↔ in_corpus entry loaded_data.
Proof.
  unfold corpus_entries, in_corpus. rewrite list_elem_of_bind. split.
  - intros ([lang loaded] & Hentry & Hlang). simpl in Hentry.
    apply list_elem_of_bind in Hentry as ([filename entries] & Hentry & Hfile).
    apply elem_of_map_to_list in Hlang, Hfile. by exists lang, loaded, filename, entries.
  - intros (lang & loaded & filename & entries & Hlang & Hfile & Hentry).
    exists (lang, loaded). split; [|by apply elem_of_map_to_list].
    simpl. apply list_elem_of_bind. exists (filename, entries).
    split; [done | by apply elem_of_map_to_list].
Qed.

Lemma entry_keys_object (entry : record) :
  is_object entry = true →
  ∃ keys, entry_keys entry = inr keys ∧ ∀ key, key ∈ keys ↔ has_key key entry.
Proof.
  destruct entry as [| | | | |items|members]; try discriminate. intros _.
  exists (list_to_set members.*1). split; [reflexivity|].
  intros key. simpl. apply elem_of_list_to_set.
Qed.

(** Pass 1 over a list of entries: the union of the keys seen. *)
Lemma union_pass (entries : list record) (acc : gset string) :
  (∀ entry, entry ∈ entries → is_object entry = true) →
  ∃ set_of_keys,
    rfoldl (λ set_of_keys entry,
              keys ←r entry_keys entry ; ret (set_of_keys ∪ keys)) acc entries
    = inr set_of_keys
    ∧ ∀ key, key ∈ set_of_keys ↔
        key ∈ acc ∨ ∃ entry, entry ∈ entries ∧ has_key key entry.
Proof.
  revert acc. induction entries as [|entry entries IH]; intros acc Hobj.
  - exists acc. split; [reflexivity|]. intros key. split; [by left|].
    intros [?|(entry & Hin & _)]; [done | by apply elem_of_nil in Hin].
  - destruct (entry_keys_object entry) as (keys & Hkeys & Hspec); [apply Hobj; left|].
    destruct (IH (acc ∪ keys)) as (set_of_keys & Hrun & Hall).
    { intros e He. apply Hobj. by right. }
    exists set_of_keys. simpl. rewrite Hkeys. simpl. split; [exact Hrun|].
    intros key. rewrite Hall, elem_of_union, Hspec. split.
    + intros [[?|?]|(e & He & Hk)]; [by left | right; exists entry | right; exists e].
      * split; [left | done].
      * split; [by right | done].
    + intros [?|(e & He & Hk)]; [by left; left|].
      apply elem_of_cons in He as [-> | He]; [by left; right|].
      right. by exists e.
Qed.

(** Pass 2 over a list of entries: the keys of the union that some entry
    lacks. *)
Lemma missing_pass (set_of_keys : gset string) (entries : list record)
    (acc : gset string) :
  (∀ entry, entry ∈ entries → is_object entry = true) →
  ∃ missing_keys,
    rfoldl (λ missing_keys entry,
              keys ←r entry_keys entry ;
              ret (missing_keys ∪ filter (λ key, key ∉ keys) set_of_keys))
      acc entries
    = inr missing_keys
    ∧ ∀ key, key ∈ missing_keys ↔
        key ∈ acc
        ∨ key ∈ set_of_keys ∧ ∃ entry, entry ∈ entries ∧ ¬ has_key key entry.
Proof.
  revert acc. induction entries as [|entry entries IH]; intros acc Hobj.
  - exists acc. split; [reflexivity|]. intros key. split; [by left|].
    intros [?|(_ & entry & Hin & _)]; [done | by apply elem_of_nil in Hin].
  - destruct (entry_keys_object entry) as (keys & Hkeys & Hspec); [apply Hobj; left|].
    destruct (IH (acc ∪ filter (λ key, key ∉ keys) set_of_keys))
      as (missing_keys & Hrun & Hall).
    { intros e He. apply Hobj. by right. }
    exists missing_keys. simpl. rewrite Hkeys. simpl. split; [exact Hrun|].
    intros key. rewrite Hall, elem_of_union, elem_of_filter, Hspec. split.
    + intros [[?|[Hlack Hk]]|(Hk & e & He & Hlack)]; [by left | right | right].
      * split; [done|]. exists entry. split; [left | done].
      * split; [done|]. exists e. split; [by right | done].
    + intros [?|(Hk & e & He & Hlack)]; [by left; left|].
      apply elem_of_cons in He as [-> | He]; [by left; right|].
      right. split; [done|]. by exists e.
Qed.

(** C1: on a corpus whose records are all objects, [identify_missing_keys]
    returns (after printing the two sets) the set of all keys, which holds
    exactly the keys present on some record, and the missing-keys set,
    which holds exactly the keys present on some record and absent from at
    least one record.  So the missing keys are among all keys, and a key
    that one record lacks and another has is in both sets. *)
Theorem identify_missing_keys_spec (loaded_data : corpus) :
  (∀ entry, in_corpus entry loaded_data → is_object entry = true) →
  ∃ set_of_keys missing_keys,
    identify_missing_keys loaded_data
    = ([Msg_set_of_keys set_of_keys; Msg_missing_keys missing_keys],
       inr (set_of_keys, missing_keys))
    ∧ (∀ key, key ∈ set_of_keys ↔
         ∃ entry, in_corpus entry loaded_data ∧ has_key key entry)
    ∧ (∀ key, key ∈ missing_keys ↔
         (∃ entry, in_corpus entry loaded_data ∧ has_key key entry)
         ∧ (∃ entry, in_corpus entry loaded_data ∧ ¬ has_key key entry))
    ∧ missing_keys ⊆ set_of_keys
    ∧ (∀ key lacking having,
         in_corpus lacking loaded_data → ¬ has_key key lacking →
         in_corpus having loaded_data → has_key key having →
         key ∈ missing_keys ∧ key ∈ set_of_keys).
Proof.
  intros Hobj.
  assert (∀ entry, entry ∈ corpus_entries loaded_data → is_object entry = true)
    as Hobj' by (intros entry Hin; by apply Hobj, elem_of_corpus_entries).
  destruct (union_pass _ ∅ Hobj') as (set_of_keys & Hpass1 & Hall).
  destruct (missing_pass set_of_keys _ ∅ Hobj') as (missing_keys & Hpass2 & Hmissing).
  assert (∀ key, key ∈ set_of_keys ↔
            ∃ entry, in_corpus entry loaded_data ∧ has_key key entry) as Hall'.
  { intros key. rewrite Hall. split.
    - intros [Hempty|(entry & Hin & Hkey)]; [by apply not_elem_of_empty in Hempty|].
      exists entry. by rewrite <- elem_of_corpus_entries.
    - intros (entry & Hin & Hkey). right. exists entry.
      by rewrite elem_of_corpus_entries. }
  assert (∀ key, key ∈ missing_keys ↔
            key ∈ set_of_keys
            ∧ ∃ entry, in_corpus entry loaded_data ∧ ¬ has_key key entry) as Hmissing'.
  { intros key. rewrite Hmissing. split.
    - intros [Hempty|(Hkey & entry & Hin & Hlack)];
        [by apply not_elem_of_empty in Hempty|].
      split; [done|]. exists entry. by rewrite <- elem_of_corpus_entries.
    - intros (Hkey & entry & Hin & Hlack). right. split; [done|].
      exists entry. by rewrite elem_of_corpus_entries. }
  exists set_of_keys, missing_keys. split; [|split; [|split; [|split]]].
  - unfold identify_missing_keys. rewrite for_each_entry_flat, Hpass1. simpl.
    by rewrite for_each_entry_flat, Hpass2.
  - exact Hall'.
  - intros key. by rewrite Hmissing', Hall'.
  - intros key [Hkey _]%Hmissing'. exact Hkey.
  - intros key lacking having Hin1 Hlack Hin2 Hhas.
    assert (key ∈ set_of_keys) as Hkey by (apply Hall'; by exists having).
    split; [|exact Hkey]. apply Hmissing'. split; [exact Hkey|]. by exists lacking.
Qed.

(** Records that are all objects is also the only case in which the
    function returns: a record that is not an object makes it raise. *)
Lemma identify_missing_keys_returns (loaded_data : corpus) out sets :
  identify_missing_keys loaded_data = (out, inr sets) →
  ∀ entry, in_corpus entry loaded_data → is_object entry = true.
Proof.
  unfold identify_missing_keys. rewrite for_each_entry_flat.
  intros Hrun entry Hin%elem_of_corpus_entries.
  destruct (rfoldl _ ∅ (corpus_entries loaded_data)) as [e|set_of_keys] eqn:Hpass1;
    [discriminate|]. clear Hrun.
  revert Hpass1 Hin. generalize (∅ : gset string).
  induction (corpus_entries loaded_data) as [|e entries IH]; intros acc Hpass1 Hin;
    [by apply elem_of_nil in Hin|].
  simpl in Hpass1.
  destruct (entry_keys e) as [err|keys] eqn:Hkeys; [discriminate|]. simpl in Hpass1.
  apply elem_of_cons in Hin as [-> | Hin]; [|by eapply IH].
  by destruct e.
Qed.

Lemma all_objects_in_corpus (loaded_data : corpus) :
  forallb is_object (corpus_entries loaded_data) = true →
  ∀ entry, in_corpus entry loaded_data → is_object entry = true.
Proof.
  intros Hall entry Hin%elem_of_corpus_entries%list_elem_of_In.
  by apply (proj1 (forallb_forall _ _) Hall).
Qed.

Lemma identify_missing_keys_spec_witness :
  (∀ entry, in_corpus entry example_corpus → is_object entry = true)
  ∧ ∃ set_of_keys missing_keys,
      (identify_missing_keys example_corpus).2 = inr (set_of_keys, missing_keys)
      ∧ "id" ∈ missing_keys ∧ "id" ∈ set_of_keys.
Proof.
  assert (∀ entry, in_corpus entry example_corpus → is_object entry = true) as Hobj
    by (apply all_objects_in_corpus; reflexivity).
  split; [exact Hobj|].
  destruct (identify_missing_keys_spec example_corpus Hobj)
    as (set_of_keys & missing_keys & Hrun & _ & _ & _ & Hboth).
  exists set_of_keys, missing_keys. split; [by rewrite Hrun|].
  apply (Hboth "id" (JObject [("name", JString "y")])
                    (JObject [("id", JInt 1); ("name", JString "x")])).
  - eexists "en", _, "a.jsonl", _.
    split; [reflexivity|]. split; [reflexivity|]. right. left.
  - simpl. intros Hin. apply list_elem_of_singleton in Hin. discriminate.
  - eexists "en", _, "a.jsonl", _.
    split; [reflexivity|]. split; [reflexivity|]. left.
  - simpl. left.
Defined.

(** ** Results about [load_all_data]: the loop over the names *)

Lemma io_bind_returns {A B} (m : io A) (f : A → io B) out (b : B) :
  io_bind m f = (out, inr b) →
  ∃ out1 a out2, m = (out1, inr a) ∧ f a = (out2, inr b) ∧ out = (out1 ++ out2)%list.
Proof.
  destruct m as [out1 [e|a]]; simpl; [discriminate|].
  destruct (f a) as [out2 r] eqn:Hf. intros [= <- ->].
  by exists out1, a, out2.
Qed.

Lemma io_foldl_cons_returns {A B} (f : A → B → io A) (a : A) (b : B) (l : list B)
    out (a'' : A) :
  io_foldl f a (b :: l) = (out, inr a'') →
  ∃ out1 a' out2, f a b = (out1, inr a') ∧ io_foldl f a' l = (out2, inr a'')
                  ∧ out = (out1 ++ out2)%list.
Proof. apply io_bind_returns. Qed.

Lemma load_dir_prints (fs : filesystem) (data_dir : option string) (n_files : option Z) :
  load_dir fs data_dir n_files
  = ([Msg_data_dir data_dir], (load_dir fs data_dir n_files).2).
Proof.
  unfold load_dir. simpl.
  destruct (given_but_missing fs data_dir); [reflexivity|].
  unfold io_lift. simpl. by destruct (_ ←r os_listdir fs data_dir ; _).
Qed.

Lemma os_path_join_Some (a b : string) : ∃ p, os_path_join (Some a) b = inr p.
Proof.
  unfold os_path_join. destruct (String.prefix "/" b); [by eexists|].
  destruct (String.eqb a "" || str_endswith a "/"); by eexists.
Qed.

Lemma ensure_entry_lookup (name : string) (loaded_data : corpus) :
  ensure_entry name loaded_data !! name = Some (default ∅ (loaded_data !! name)).
Proof.
  unfold ensure_entry. destruct (loaded_data !! name) eqn:Hname; [done|].
  by rewrite lookup_insert_eq.
Qed.

Lemma ensure_entry_lookup_ne (name other : string) (loaded_data : corpus) :
  name ≠ other → ensure_entry name loaded_data !! other = loaded_data !! other.
Proof.
  intros Hne. unfold ensure_entry. destruct (loaded_data !! name); [done|].
  by rewrite lookup_insert_ne.
Qed.

Lemma ensure_entry_idemp (name : string) (loaded_data : corpus) :
  ensure_entry name (ensure_entry name loaded_data) = ensure_entry name loaded_data.
Proof.
  unfold ensure_entry at 1. by rewrite ensure_entry_lookup.
Qed.

Section walk.
Variable fs : filesystem.
Variable data_dir : string.
Variable n_files : option Z.

(** The three ways one iteration can complete: the subdirectory is
    absent; it is present and a non-empty mapping is already stored; it
    is present and [load_dir] runs. *)
Lemma load_lang_returns (loaded_data : corpus) (lang_dir : string) out
    (loaded_data' : corpus) :
  load_lang fs (Some data_dir) n_files loaded_data lang_dir = (out, inr loaded_data') →
  ∃ dirlang, os_path_join (Some data_dir) lang_dir = inr dirlang ∧
    ((present fs dirlang = false
      ∧ out = [Msg_checking dirlang (os_path_exists fs dirlang)
                 (os_path_isdir fs dirlang); Msg_absent dirlang]
      ∧ loaded_data' = ensure_entry lang_dir loaded_data)
     ∨ (present fs dirlang = true
        ∧ size (default ∅ (loaded_data !! lang_dir)) ≠ 0
        ∧ out = [Msg_checking dirlang true true; Msg_loading dirlang]
        ∧ loaded_data' = loaded_data)
     ∨ (present fs dirlang = true
        ∧ size (default ∅ (loaded_data !! lang_dir)) = 0
        ∧ ∃ loaded, (load_dir fs (Some dirlang) n_files).2 = inr loaded
            ∧ out = [Msg_checking dirlang true true; Msg_loading dirlang;
                     Msg_data_dir (Some dirlang)]
            ∧ loaded_data' = <[lang_dir := loaded]> loaded_data)).
Proof.
  unfold load_lang.
  destruct (os_path_join_Some data_dir lang_dir) as [dirlang Hjoin].
  rewrite Hjoin. intros Hrun. exists dirlang. split; [reflexivity|].
  simpl in Hrun. fold (present fs dirlang) in Hrun.
  destruct (present fs dirlang) eqn:Hpresent.
  - right. apply andb_true_iff in Hpresent as Hboth. destruct Hboth as [He Hi].
    rewrite He, Hi in Hrun. rewrite ensure_entry_idemp, ensure_entry_lookup in Hrun.
    destruct (Nat.eqb_spec (size (default ∅ (loaded_data !! lang_dir))) 0)
      as [Hempty|Hfull].
    + right. split; [done|]. split; [done|].
      rewrite load_dir_prints in Hrun. simpl in Hrun.
      destruct (load_dir fs (Some dirlang) n_files).2 as [e|loaded]; simpl in Hrun;
        [discriminate|].
      exists loaded. split; [done|]. injection Hrun as <- <-. split; [done|].
      unfold ensure_entry. destruct (loaded_data !! lang_dir); [done|].
      by rewrite insert_insert_eq.
    + left. split; [done|]. split; [done|]. simpl in Hrun.
      injection Hrun as <- <-. split; [done|].
      unfold ensure_entry. destruct (loaded_data !! lang_dir) eqn:Hl; [done|].
      simpl in Hfull. by rewrite map_size_empty in Hfull.
  - left. split; [done|]. simpl in Hrun. by injection Hrun as <- <-.
Qed.

Lemma load_lang_untouched (loaded_data : corpus) (lang_dir : string) out
    (loaded_data' : corpus) (other : string) :
  load_lang fs (Some data_dir) n_files loaded_data lang_dir = (out, inr loaded_data') →
  is_Some (loaded_data' !! lang_dir)
  ∧ (lang_dir ≠ other → loaded_data' !! other = loaded_data !! other).
Proof.
  intros (dirlang & _ & Hcases)%load_lang_returns.
  destruct Hcases as [(_ & _ & ->)|[(_ & Hfull & _ & ->)|(_ & _ & l & _ & _ & ->)]].
  - rewrite ensure_entry_lookup. split; [by eexists|]. apply ensure_entry_lookup_ne.
  - split; [|done]. destruct (loaded_data !! lang_dir); [by eexists|].
    simpl in Hfull. by rewrite map_size_empty in Hfull.
  - rewrite lookup_insert_eq. split; [by eexists|]. intros Hne.
    by rewrite lookup_insert_ne.
Qed.

(** An iteration completes unless [load_dir] raises on a present
    subdirectory. *)
Lemma load_lang_total (loaded_data : corpus) (lang_dir : string) :
  (∀ dirlang, os_path_join (Some data_dir) lang_dir = inr dirlang →
     present fs dirlang = true →
     ∃ loaded, (load_dir fs (Some dirlang) n_files).2 = inr loaded) →
  ∃ out loaded_data',
    load_lang fs (Some data_dir) n_files loaded_data lang_dir = (out, inr loaded_data').
Proof.
  intros Hloads. unfold load_lang.
  destruct (os_path_join_Some data_dir lang_dir) as [dirlang Hjoin].
  rewrite Hjoin. simpl. fold (present fs dirlang).
  destruct (present fs dirlang) eqn:Hpresent; [|by do 2 eexists].
  destruct (Hloads dirlang Hjoin Hpresent) as [loaded Hloaded].
  rewrite ensure_entry_idemp, ensure_entry_lookup.
  destruct (Nat.eqb (size (default ∅ (loaded_data !! lang_dir))) 0); [|by do 2 eexists].
  rewrite load_dir_prints, Hloaded. by do 2 eexists.
Qed.

Lemma walk_total (names : list string) (loaded_data : corpus) :
  (∀ lang_dir dirlang, lang_dir ∈ names →
     os_path_join (Some data_dir) lang_dir = inr dirlang →
     present fs dirlang = true →
     ∃ loaded, (load_dir fs (Some dirlang) n_files).2 = inr loaded) →
  ∃ out loaded_data',
    io_foldl (load_lang fs (Some data_dir) n_files) loaded_data names
    = (out, inr loaded_data').
Proof.
  revert loaded_data. induction names as [|lang_dir names IH]; intros loaded_data Hloads;
    [by do 2 eexists|].
  destruct (load_lang_total loaded_data lang_dir) as (out1 & loaded_data1 & Hstep).
  { intros dirlang. apply Hloads. left. }
  destruct (IH loaded_data1) as (out2 & loaded_data2 & Hrest).
  { intros l dl Hin. apply Hloads. by right. }
  simpl. rewrite Hstep. simpl. rewrite Hrest. by do 2 eexists.
Qed.

Lemma walk_entries (names : list string) (loaded_data : corpus) out
    (loaded_data' : corpus) :
  io_foldl (load_lang fs (Some data_dir) n_files) loaded_data names
  = (out, inr loaded_data') →
  (∀ lang_dir, is_Some (loaded_data !! lang_dir) ∨ lang_dir ∈ names →
     is_Some (loaded_data' !! lang_dir))
  ∧ (∀ lang_dir dirlang,
       os_path_join (Some data_dir) lang_dir = inr dirlang →
       present fs dirlang = false →
       kept_or_created lang_dir loaded_data loaded_data'
       ∧ (lang_dir ∈ names → Msg_absent dirlang ∈ out)).
Proof.
  revert loaded_data out. induction names as [|name names IH]; intros loaded_data out.
  - intros [= <- <-]. split.
    + intros lang_dir [?|Hin]; [done | by apply elem_of_nil in Hin].
    + intros lang_dir dirlang _ _. split; [by left|].
      intros Hin. by apply elem_of_nil in Hin.
  - intros (out1 & loaded_data1 & out2 & Hstep & Hrest & ->)%io_foldl_cons_returns.
    destruct (IH _ _ Hrest) as [Hdom Habsent]. split.
    + intros lang_dir Hin. apply Hdom.
      destruct (decide (name = lang_dir)) as [<-|Hne].
      * left. by eapply load_lang_untouched.
      * destruct (load_lang_untouched _ _ _ _ lang_dir Hstep) as [_ Hsame].
        rewrite (Hsame Hne).
        destruct Hin as [?|[?|?]%elem_of_cons]; [by left | congruence | by right].
    + intros lang_dir dirlang Hjoin Hgone.
      destruct (Habsent lang_dir dirlang Hjoin Hgone) as [Hlater Hprinted].
      assert (kept_or_created lang_dir loaded_data loaded_data1
              ∧ (name = lang_dir → Msg_absent dirlang ∈ out1)) as [Hfirst Hout1].
      { destruct (decide (name = lang_dir)) as [<-|Hne].
        - apply load_lang_returns in Hstep as (dirlang' & Hjoin' & Hcases).
          assert (dirlang' = dirlang) as -> by congruence.
          destruct Hcases as [(_ & -> & ->)|[(Hp & _)|(Hp & _)]]; [|congruence..].
          split; [|intros _; right; left].
          unfold kept_or_created. rewrite ensure_entry_lookup.
          destruct (loaded_data !! name); [by left | by right].
        - destruct (load_lang_untouched _ _ _ _ lang_dir Hstep) as [_ Hsame].
          split; [by left; apply Hsame | done]. }
      split.
      * unfold kept_or_created in *.
        destruct Hfirst as [Heq|[Hnone Hnew]], Hlater as [Heq'|[Hnone' Hnew']];
          try (left; congruence); try (right; split; congruence).
      * intros [<-|Hin]%elem_of_cons; apply elem_of_app; [left | right]; auto.
Qed.
(** [load_dir] runs on present subdirectories only. *)
Lemma walk_loads_present (names : list string) (loaded_data : corpus) out
    (loaded_data' : corpus) (dirlang : string) :
  io_foldl (load_lang fs (Some data_dir) n_files) loaded_data names
  = (out, inr loaded_data') →
  Msg_data_dir (Some dirlang) ∈ out → present fs dirlang = true.
Proof.
  revert loaded_data out. induction names as [|name names IH]; intros loaded_data out.
  - intros [= <- <-] Hin. by apply elem_of_nil in Hin.
  - intros (out1 & loaded_data1 & out2 & Hstep & Hrest & ->)%io_foldl_cons_returns.
    intros [Hin|Hin]%elem_of_app; [|by eapply IH].
    apply load_lang_returns in Hstep as (dirlang' & _ & Hcases).
    destruct Hcases as [(_ & -> & _)|[(_ & _ & -> & _)|(Hp & _ & l & _ & -> & _)]];
      repeat (apply elem_of_cons in Hin as [Hin|Hin]; [try discriminate Hin|]);
      try (by apply elem_of_nil in Hin).
    by injection Hin as ->.
Qed.
End walk.

Lemma load_all_data_valid (fs : filesystem) (data_dir : string) (names : list string)
    (n_files : option Z) :
  os_path_exists fs data_dir = true → names ≠ [] →
  load_all_data fs (Some data_dir) (Py_list names) n_files
  = (loaded_data ←io io_foldl (load_lang fs (Some data_dir) n_files) ∅ names ;
     print (Msg_summary (size loaded_data) (count_files loaded_data)) ;;io
     print (Msg_success (Some data_dir)) ;;io
     io_ret loaded_data).
Proof.
  intros Hroot Hnames. unfold load_all_data.
  assert (String.eqb data_dir "" = false) as Hne.
  { destruct (String.eqb_spec data_dir ""); [subst; discriminate | done]. }
  simpl. rewrite Hne, Hroot. simpl.
  destruct names as [|name names]; [done|]. simpl.
  by destruct (io_bind _ _) as [out [e|loaded_data]].
Qed.

Lemma load_all_data_returns (fs : filesystem) (data_dir : string) (names : list string)
    (n_files : option Z) out (loaded_data : corpus) :
  os_path_exists fs data_dir = true → names ≠ [] →
  load_all_data fs (Some data_dir) (Py_list names) n_files = (out, inr loaded_data) →
  ∃ walked,
    io_foldl (load_lang fs (Some data_dir) n_files) ∅ names = (walked, inr loaded_data)
    ∧ out = (walked ++ [Msg_summary (size loaded_data) (count_files loaded_data);
                        Msg_success (Some data_dir)])%list.
Proof.
  intros Hroot Hnames. rewrite (load_all_data_valid _ _ _ _ Hroot Hnames).
  intros (walked & loaded_data' & out2 & Hwalk & Hrest & ->)%io_bind_returns.
  simpl in Hrest. injection Hrest as <- <-. by exists walked.
Qed.

(** C8: in a call with an existing root and a non-empty list of names,
    a subdirectory that is absent or is not a directory never makes the
    call fail: the call returns whenever [load_dir] returns on the
    subdirectories that are present.  The mapping it returns has an entry
    for every listed name, and for a name whose subdirectory is absent or
    not a directory that entry is the empty mapping and the diagnostic for
    its path is among the output. *)
Theorem load_all_data_absent_subdirectory (fs : filesystem) (data_dir : string)
    (names : list string) (n_files : option Z) :
  os_path_exists fs data_dir = true →
  names ≠ [] →
  ((∀ lang_dir dirlang, lang_dir ∈ names →
      os_path_join (Some data_dir) lang_dir = inr dirlang →
      present fs dirlang = true →
      ∃ loaded, (load_dir fs (Some dirlang) n_files).2 = inr loaded) →
   ∃ out loaded_data,
     load_all_data fs (Some data_dir) (Py_list names) n_files = (out, inr loaded_data))
  ∧ (∀ out (loaded_data : corpus),
       load_all_data fs (Some data_dir) (Py_list names) n_files = (out, inr loaded_data) →
       ∀ lang_dir, lang_dir ∈ names →
         is_Some (loaded_data !! lang_dir)
         ∧ ∀ dirlang, os_path_join (Some data_dir) lang_dir = inr dirlang →
             present fs dirlang = false →
             loaded_data !! lang_dir = Some ∅
             ∧ Msg_absent dirlang ∈ out
             ∧ Msg_data_dir (Some dirlang) ∉ out).
Proof.
  intros Hroot Hnames. split.
  - intros Hloads. rewrite (load_all_data_valid _ _ _ _ Hroot Hnames).
    destruct (walk_total fs data_dir n_files names ∅ Hloads) as (walked & loaded_data & ->).
    by do 2 eexists.
  - intros out loaded_data (walked & Hwalk & ->)%load_all_data_returns; [|done..].
    pose proof (λ dirlang, walk_loads_present _ _ _ _ _ _ _ dirlang Hwalk) as Hloads.
    apply walk_entries in Hwalk as [Hdom Habsent].
    intros lang_dir Hin. split; [apply Hdom; by right|].
    intros dirlang Hjoin Hgone.
    destruct (Habsent lang_dir dirlang Hjoin Hgone) as [Hentry Hprinted].
    split; [|split; [apply elem_of_app; left; by apply Hprinted|]].
    + destruct (Hdom lang_dir (or_intror Hin)) as [loaded Hloaded].
      destruct Hentry as [Hkept|[_ Hcreated]]; [|done].
      rewrite Hkept, lookup_empty in Hloaded. discriminate.
    + intros [Hcall|Hcall]%elem_of_app.
      * apply Hloads in Hcall. congruence.
      * repeat (apply elem_of_cons in Hcall as [Hcall|Hcall]; [discriminate Hcall|]).
        by apply elem_of_nil in Hcall.
Qed.

Lemma load_all_data_absent_subdirectory_witness :
  os_path_exists example_fs "data" = true
  ∧ ["en"; "fr"; "README"] ≠ []
  ∧ ∃ out loaded_data,
      load_all_data example_fs (Some "data") (Py_list ["en"; "fr"; "README"]) None
      = (out, inr loaded_data)
      ∧ (loaded_data !! "fr" = Some ∅ ∧ Msg_absent "data/fr" ∈ out
         ∧ Msg_data_dir (Some "data/fr") ∉ out)
      ∧ (loaded_data !! "README" = Some ∅ ∧ Msg_absent "data/README" ∈ out
         ∧ Msg_data_dir (Some "data/README") ∉ out).
Proof.
  split; [reflexivity|]. split; [discriminate|].
  destruct (load_all_data_absent_subdirectory example_fs "data" ["en"; "fr"; "README"] None
              eq_refl ltac:(discriminate)) as [Hreturns Hentries].
  destruct Hreturns as (out & loaded_data & Hrun).
  { intros lang_dir dirlang Hin.
    repeat (apply elem_of_cons in Hin as [-> | Hin]); [| | |by apply elem_of_nil in Hin].
    - intros [= <-] _. eexists. reflexivity.
    - intros [= <-] Hpresent. vm_compute in Hpresent. discriminate Hpresent.
    - intros [= <-] Hpresent. vm_compute in Hpresent. discriminate Hpresent. }
  exists out, loaded_data. split; [exact Hrun|].
  destruct (Hentries out loaded_data Hrun "fr") as [_ Hfr]; [right; left|].
  destruct (Hentries out loaded_data Hrun "README") as [_ Hreadme]; [right; right; left|].
  split; [exact (Hfr "data/fr" eq_refl eq_refl) | exact (Hreadme "data/README" eq_refl eq_refl)].
Defined.

(** ** Results about [load_all_data]: names listed more than once *)

Lemma load_dir_calls_app (dirlang : string) (out1 out2 : list message) :
  load_dir_calls dirlang (out1 ++ out2)%list
  = load_dir_calls dirlang out1 + load_dir_calls dirlang out2.
Proof. unfold load_dir_calls. by rewrite filter_app, length_app. Qed.

Lemma load_dir_calls_cons (dirlang : string) (m : message) (out : list message) :
  load_dir_calls dirlang (m :: out)
  = (if decide (m = Msg_data_dir (Some dirlang)) then 1 else 0)
    + load_dir_calls dirlang out.
Proof. unfold load_dir_calls. rewrite filter_cons. by case_decide. Qed.

Lemma occurrences_cons (name other : string) (names : list string) :
  occurrences name (other :: names)
  = (if decide (other = name) then 1 else 0) + occurrences name names.
Proof. unfold occurrences. rewrite filter_cons. by case_decide. Qed.

(** The calls one iteration makes: one on its own subdirectory if it
    reloads, none otherwise. *)
Lemma load_lang_calls (fs : filesystem) (data_dir : string) (n_files : option Z)
    (loaded_data : corpus) (lang_dir : string) out (loaded_data' : corpus)
    (dirlang : string) :
  load_lang fs (Some data_dir) n_files loaded_data lang_dir = (out, inr loaded_data') →
  os_path_join (Some data_dir) lang_dir ≠ inr dirlang →
  load_dir_calls dirlang out = 0.
Proof.
  intros (dirlang' & Hjoin & Hcases)%load_lang_returns Hdiff.
  assert (Msg_data_dir (Some dirlang') ≠ Msg_data_dir (Some dirlang)) as Hne by congruence.
  destruct Hcases as [(_ & -> & _)|[(_ & _ & -> & _)|(_ & _ & l & _ & -> & _)]];
    rewrite !load_dir_calls_cons; repeat case_decide; done.
Qed.

(** C9, as the claim states it, fails: [data/de] is a directory with no
    data file, so the mapping loaded for [de] is empty, and listing [de]
    twice runs [load_dir] on it twice. *)
Lemma load_all_data_reloads_counterexample :
  os_path_exists example_fs "data" = true
  ∧ occurrences "de" ["de"; "de"] = 2
  ∧ load_all_data example_fs (Some "data") (Py_list ["de"; "de"]) None
    = ([Msg_checking "data/de" true true; Msg_loading "data/de";
        Msg_data_dir (Some "data/de");
        Msg_checking "data/de" true true; Msg_loading "data/de";
        Msg_data_dir (Some "data/de");
        Msg_summary 1 0; Msg_success (Some "data")],
       inr {[ "de" := ∅ ]})
  ∧ ¬ (load_dir_calls "data/de"
         (load_all_data example_fs (Some "data") (Py_list ["de"; "de"]) None).1 ≤ 1)%nat.
Proof.
  repeat split; try (vm_compute; reflexivity).
  vm_compute. lia.
Qed.

Section repeated.
Variable fs : filesystem.
Variable data_dir : string.
Variable n_files : option Z.
Variable name dirlang : string.
Hypothesis name_dirlang : os_path_join (Some data_dir) name = inr dirlang.
Hypothesis dirlang_present : present fs dirlang = true.

(** A first visit of [name] runs [load_dir] on its subdirectory, so a
    walk that completes shows that this call returns. *)
Lemma walk_first_load (names : list string) (loaded_data : corpus) out
    (loaded_data' : corpus) :
  loaded_data !! name = None → name ∈ names →
  io_foldl (load_lang fs (Some data_dir) n_files) loaded_data names
  = (out, inr loaded_data') →
  ∃ loaded, (load_dir fs (Some dirlang) n_files).2 = inr loaded.
Proof.
  revert loaded_data out. induction names as [|head names IH];
    intros loaded_data out Hfresh Hin; [by apply elem_of_nil in Hin|].
  intros (out1 & loaded_data1 & out2 & Hstep & Hrest & ->)%io_foldl_cons_returns.
  destruct (decide (head = name)) as [->|Hne].
  - apply load_lang_returns in Hstep as (dirlang' & Hjoin & Hcases).
    assert (dirlang' = dirlang) as -> by congruence.
    destruct Hcases as [(Hgone & _)|[(_ & Hfull & _)|(_ & _ & l & Hl & _)]].
    + congruence.
    + rewrite Hfresh in Hfull. simpl in Hfull. by rewrite map_size_empty in Hfull.
    + by exists l.
  - apply elem_of_cons in Hin as [->|Hin]; [done|].
    destruct (load_lang_untouched _ _ _ _ _ _ _ name Hstep) as [_ Hsame].
    apply (IH loaded_data1 out2); [|done..]. by rewrite Hsame.
Qed.

Variable loaded : files.
Hypothesis dirlang_loads : (load_dir fs (Some dirlang) n_files).2 = inr loaded.

Lemma walk_calls (names : list string) (loaded_data : corpus) out
    (loaded_data' : corpus) :
  (∀ other, other ∈ names →
     os_path_join (Some data_dir) other = inr dirlang → other = name) →
  loaded_data !! name = None ∨ loaded_data !! name = Some loaded →
  io_foldl (load_lang fs (Some data_dir) n_files) loaded_data names
  = (out, inr loaded_data') →
  (loaded_data' !! name = None ∨ loaded_data' !! name = Some loaded)
  ∧ (name ∈ names → loaded_data' !! name = Some loaded)
  ∧ load_dir_calls dirlang out = calls_to_come name loaded loaded_data names.
Proof.
  revert loaded_data out. induction names as [|head names IH];
    intros loaded_data out Honly Hinv.
  - intros [= <- <-]. split; [done|]. split; [intros Hin; by apply elem_of_nil in Hin|].
    unfold calls_to_come. destruct (Nat.eqb (size loaded) 0); [done|].
    by destruct (loaded_data !! name).
  - intros (out1 & loaded_data1 & out2 & Hstep & Hrest & ->)%io_foldl_cons_returns.
    assert (∀ other, other ∈ names →
              os_path_join (Some data_dir) other = inr dirlang → other = name)
      as Honly' by (intros other Hin; apply Honly; by right).
    rewrite load_dir_calls_app.
    destruct (decide (head = name)) as [->|Hne].
    + apply load_lang_returns in Hstep as (dirlang' & Hjoin & Hcases).
      assert (dirlang' = dirlang) as -> by congruence.
      destruct Hcases as [(Hgone & _)|[(_ & Hfull & -> & ->)|(_ & Hempty & l & Hl & -> & ->)]].
      * congruence.
      * destruct Hinv as [Hfresh|Hstored]; rewrite ?Hfresh, ?Hstored in Hfull;
          simpl in Hfull; [by rewrite map_size_empty in Hfull|].
        destruct (IH _ _ Honly' (or_intror Hstored) Hrest) as (Hinv' & Hfinal & Hcalls).
        split; [done|]. split.
        { intros _. destruct Hinv' as [Hnone|?]; [|done].
          assert (is_Some (loaded_data' !! name)) as [? ?]; [|congruence].
          eapply (walk_entries fs data_dir n_files); [exact Hrest|]. left.
          by rewrite Hstored. }
        rewrite Hcalls. unfold calls_to_come. rewrite Hstored.
        apply Nat.eqb_neq in Hfull. rewrite Hfull.
        rewrite !load_dir_calls_cons. repeat case_decide; done.
      * assert (l = loaded) as -> by congruence.
        assert (<[name := loaded]> loaded_data !! name = Some loaded) as Hstored
          by apply lookup_insert_eq.
        destruct (IH _ _ Honly' (or_intror Hstored) Hrest) as (Hinv' & Hfinal & Hcalls).
        split; [done|]. split.
        { intros _. destruct Hinv' as [Hnone|?]; [|done].
          assert (is_Some (loaded_data' !! name)) as [? ?]; [|congruence].
          eapply (walk_entries fs data_dir n_files); [exact Hrest|]. left.
          by rewrite Hstored. }
        rewrite Hcalls. unfold calls_to_come. rewrite Hstored, occurrences_cons.
        rewrite !load_dir_calls_cons. repeat case_decide; try done.
        destruct (Nat.eqb_spec (size loaded) 0) as [Hzero|Hnonzero]; [done|].
        destruct Hinv as [Hfresh|Hold].
        -- rewrite Hfresh. simpl. lia.
        -- rewrite Hold in Hempty. done.
    + assert (os_path_join (Some data_dir) head ≠ inr dirlang) as Hdiff.
      { intros Hsame. apply Hne, Honly; [left | done]. }
      rewrite (load_lang_calls _ _ _ _ _ _ _ _ Hstep Hdiff).
      destruct (load_lang_untouched _ _ _ _ _ _ _ name Hstep) as [_ Hsame].
      specialize (Hsame Hne).
      destruct (IH loaded_data1 out2 Honly') as (Hinv' & Hfinal & Hcalls);
        [by rewrite Hsame | done |].
      split; [done|]. split.
      { intros [?|Hin]%elem_of_cons; [congruence | by apply Hfinal]. }
      rewrite Hcalls. unfold calls_to_come. rewrite Hsame, occurrences_cons.
      by case_decide.
Qed.
End repeated.

Lemma occurrences_elem_of (name : string) (names : list string) :
  name ∈ names → (0 < occurrences name names)%nat.
Proof.
  induction names as [|other names IH]; intros Hin; [by apply elem_of_nil in Hin|].
  rewrite occurrences_cons. case_decide; [lia|].
  apply elem_of_cons in Hin as [->|Hin]; [done|]. specialize (IH Hin). lia.
Qed.

(** C9 (amended): take a call with an existing root that returns, and a
    listed name whose subdirectory is present and is the subdirectory of
    no other listed name.  Then [load_dir] returns on that subdirectory,
    the final entry of the name is the mapping it returns, and the number
    of times [load_dir] ran on it is one if that mapping is non-empty,
    however often the name is listed, and the number of occurrences of the
    name if the mapping is empty. *)
Theorem load_all_data_repeated_name (fs : filesystem) (data_dir : string)
    (names : list string) (n_files : option Z) (name dirlang : string) out
    (loaded_data : corpus) :
  os_path_exists fs data_dir = true →
  name ∈ names →
  os_path_join (Some data_dir) name = inr dirlang →
  present fs dirlang = true →
  (∀ other, other ∈ names →
     os_path_join (Some data_dir) other = inr dirlang → other = name) →
  load_all_data fs (Some data_dir) (Py_list names) n_files = (out, inr loaded_data) →
  ∃ loaded,
    (load_dir fs (Some dirlang) n_files).2 = inr loaded
    ∧ loaded_data !! name = Some loaded
    ∧ load_dir_calls dirlang out
      = if Nat.eqb (size loaded) 0 then occurrences name names else 1.
Proof.
  intros Hroot Hin Hjoin Hpresent Honly Hrun.
  assert (names ≠ []) as Hnames by (intros Hnil; rewrite Hnil in Hin; by apply elem_of_nil in Hin).
  apply load_all_data_returns in Hrun as (walked & Hwalk & ->); [|done..].
  destruct (walk_first_load fs data_dir n_files name dirlang Hjoin Hpresent
              names ∅ walked loaded_data) as [loaded Hloaded]; [done..|].
  destruct (walk_calls fs data_dir n_files name dirlang Hjoin Hpresent loaded Hloaded
              names ∅ walked loaded_data Honly) as (_ & Hfinal & Hcalls); [by left | done |].
  exists loaded. split; [done|]. split; [by apply Hfinal|].
  rewrite load_dir_calls_app, Hcalls, !load_dir_calls_cons.
  repeat case_decide; try done. unfold calls_to_come, load_dir_calls. simpl.
  rewrite lookup_empty. pose proof (occurrences_elem_of _ _ Hin) as Hpos.
  destruct (Nat.eqb (size loaded) 0); [lia|].
  destruct (occurrences name names); lia.
Qed.

Lemma load_all_data_repeated_name_witness :
  os_path_exists example_fs "data" = true
  ∧ "en" ∈ ["en"; "de"; "en"]
  ∧ os_path_join (Some "data") "en" = inr "data/en"
  ∧ present example_fs "data/en" = true
  ∧ (∀ other, other ∈ ["en"; "de"; "en"] →
       os_path_join (Some "data") other = inr "data/en" → other = "en")
  ∧ ∃ out loaded_data loaded,
      load_all_data example_fs (Some "data") (Py_list ["en"; "de"; "en"]) None
      = (out, inr loaded_data)
      ∧ (load_dir example_fs (Some "data/en") None).2 = inr loaded
      ∧ loaded_data !! "en" = Some loaded
      ∧ load_dir_calls "data/en" out = 1.
Proof.
  assert (∀ other, other ∈ ["en"; "de"; "en"] →
            os_path_join (Some "data") other = inr "data/en" → other = "en") as Honly.
  { intros other Hin.
    repeat (apply elem_of_cons in Hin as [-> | Hin]);
      [reflexivity | intros Hjoin; vm_compute in Hjoin; discriminate Hjoin | reflexivity |].
    by apply elem_of_nil in Hin. }
  assert (os_path_exists example_fs "data" = true) as Hroot by reflexivity.
  assert (os_path_join (Some "data") "en" = inr "data/en") as Hjoin
    by reflexivity.
  assert (present example_fs "data/en" = true) as Hpresent by reflexivity.
  split; [exact Hroot|]. split; [left|]. split; [exact Hjoin|]. split; [exact Hpresent|].
  split; [exact Honly|].
  assert (∃ out loaded_data,
            load_all_data example_fs (Some "data") (Py_list ["en"; "de"; "en"]) None
            = (out, inr loaded_data)) as (out & loaded_data & Hrun).
  { do 2 eexists. reflexivity. }
  destruct (load_all_data_repeated_name example_fs "data" ["en"; "de"; "en"] None
              "en" "data/en" out loaded_data Hroot ltac:(left) Hjoin Hpresent
              Honly Hrun) as (loaded & Hloaded & Hentry & Hcalls).
  exists out, loaded_data, loaded.
  split; [exact Hrun|]. split; [exact Hloaded|]. split; [exact Hentry|].
  rewrite Hcalls.
  assert (∃ l, (load_dir example_fs (Some "data/en") None).2 = inr l
               ∧ Nat.eqb (size l) 0 = false) as (l & Hl & Hsize).
  { eexists. split; reflexivity. }
  assert (loaded = l) as -> by congruence.
  rewrite Hsize. reflexivity.
Defined.

(** * Further results *)

(** ** More about [load_json_file] *)





(** ** More about [load_dir] *)

Lemma load_dir_listed (fs : filesystem) (data_dir : string) (entries : list string)
    (n_files : option Z) :
  fs_lookup fs data_dir = Some (Dir entries) →
  load_dir fs (Some data_dir) n_files
  = ([Msg_data_dir (Some data_dir)],
     load_dir_entries fs (Some data_dir) n_files 0 entries ∅).
Proof.
  intros Hdir. unfold load_dir, given_but_missing, os_path_exists, os_listdir. simpl.
  rewrite Hdir. by rewrite andb_false_r.
Qed.

Lemma load_dir_entries_step (fs : filesystem) (data_dir : option string)
    (n_files : option Z) (k : nat) (entry : string) (entries : list string)
    (acc : files) :
  load_dir_entries fs data_dir n_files k (entry :: entries) acc
  = if str_endswith entry ".jsonl" && within_cap n_files k
    then records ←r load_entry fs data_dir entry ;
         load_dir_entries fs data_dir n_files (S k) entries (<[entry := records]> acc)
    else load_dir_entries fs data_dir n_files (S k) entries acc.
Proof.
  simpl. destruct (_ && _); [|reflexivity]. unfold load_entry.
  by destruct (os_path_join data_dir entry).
Qed.

Lemma selected_spec (n_files : option Z) (k : nat) (entries : list string)
    (fname : string) :
  selected n_files k entries fname = true ↔
    str_endswith fname ".jsonl" = true
    ∧ ∃ i, entries !! i = Some fname ∧ within_cap n_files (k + i) = true.
Proof.
  revert k. induction entries as [|entry entries IH]; intros k; simpl.
  - split; [discriminate|]. by intros (_ & i & [=] & _).
  - rewrite orb_true_iff, !andb_true_iff, IH. split.
    + intros [(->%String.eqb_eq & Hext & Hcap)|(Hext & i & Hi & Hcap)].
      * split; [done|]. exists 0. by rewrite Nat.add_0_r.
      * split; [done|]. exists (S i). by rewrite Nat.add_succ_r.
    + intros (Hext & [|i] & Hi & Hcap).
      * injection Hi as ->. left. rewrite String.eqb_refl.
        by rewrite Nat.add_0_r in Hcap.
      * right. split; [done|]. exists i. by rewrite Nat.add_succ_r in Hcap.
Qed.

(** The mapping the comprehension builds, entry by entry. *)
Lemma load_dir_entries_lookup (fs : filesystem) (data_dir : option string)
    (n_files : option Z) (entries : list string) (k : nat) (acc loaded : files)
    (fname : string) :
  load_dir_entries fs data_dir n_files k entries acc = inr loaded →
  loaded !! fname
  = if selected n_files k entries fname
    then match load_entry fs data_dir fname with
         | inr records => Some records
         | inl _ => None
         end
    else acc !! fname.
Proof.
  revert k acc. induction entries as [|entry entries IH]; intros k acc.
  - by intros [= <-].
  - rewrite load_dir_entries_step. cbn [selected].
    destruct (str_endswith entry ".jsonl" && within_cap n_files k) eqn:Hpass.
    + destruct (load_entry fs data_dir entry) as [e|records] eqn:Hentry; [discriminate|].
      simpl. intros Hrun. rewrite (IH _ _ Hrun).
      destruct (selected n_files (S k) entries fname); [by rewrite orb_true_r|].
      rewrite orb_false_r, andb_true_r.
      destruct (String.eqb_spec entry fname) as [<-|Hne].
      * by rewrite Hentry, lookup_insert_eq.
      * by rewrite lookup_insert_ne.
    + intros Hrun. rewrite (IH _ _ Hrun). by rewrite andb_false_r.
Qed.

(** The comprehension completes exactly when every file it selects loads. *)
Lemma load_dir_entries_returns (fs : filesystem) (data_dir : option string)
    (n_files : option Z) (entries : list string) (k : nat) (acc : files) :
  (∃ loaded, load_dir_entries fs data_dir n_files k entries acc = inr loaded) ↔
  ∀ fname, selected n_files k entries fname = true →
           ∃ records, load_entry fs data_dir fname = inr records.
Proof.
  revert k acc. induction entries as [|entry entries IH]; intros k acc.
  - split; [discriminate | by eexists].
  - rewrite load_dir_entries_step. cbn [selected].
    destruct (str_endswith entry ".jsonl" && within_cap n_files k) eqn:Hpass.
    + destruct (load_entry fs data_dir entry) as [e|records] eqn:Hentry; simpl.
      * split; [by intros [? [=]]|]. intros Hall.
        destruct (Hall entry) as [records Hrecords]; [by rewrite String.eqb_refl|].
        rewrite Hentry in Hrecords. discriminate Hrecords.
      * rewrite IH. split.
        -- intros Hall fname [[->%String.eqb_eq _]%andb_true_iff|Hsel]%orb_true_iff;
             [by eexists | by apply Hall].
        -- intros Hall fname Hsel. apply Hall. by rewrite Hsel, orb_true_r.
    + rewrite IH. split.
      * intros Hall fname Hsel. apply Hall. by rewrite andb_false_r in Hsel.
      * intros Hall fname Hsel. apply Hall. by rewrite Hsel, orb_true_r.
Qed.

(** X2: The mapping [load_dir] returns, key by key: a name is a key, with the
    records of its file as value, exactly when it ends in [.jsonl], is
    listed at a position below the cap, and its file loads to those
    records. *)
Theorem load_dir_lookup (fs : filesystem) (data_dir : string) (entries : list string)
    (n_files : option Z) (loaded : files) :
  fs_lookup fs data_dir = Some (Dir entries) →
  (load_dir fs (Some data_dir) n_files).2 = inr loaded →
  ∀ fname records,
    loaded !! fname = Some records ↔
      str_endswith fname ".jsonl" = true
      ∧ (∃ i, entries !! i = Some fname ∧ within_cap n_files i = true)
      ∧ load_entry fs (Some data_dir) fname = inr records.
Proof.
  intros Hdir. rewrite (load_dir_listed _ _ _ _ Hdir). simpl. intros Hrun fname records.
  rewrite (load_dir_entries_lookup _ _ _ _ _ _ _ fname Hrun), lookup_empty.
  pose proof (selected_spec n_files 0 entries fname) as Hsel. simpl in Hsel.
  destruct (selected n_files 0 entries fname).
  - destruct (proj1 Hsel eq_refl) as [Hext Hpos].
    destruct (load_entry fs (Some data_dir) fname) as [e|records'].
    + split; [discriminate | by intros (_ & _ & [=])].
    + split; [by intros [= <-] | by intros (_ & _ & [= <-])].
  - split; [discriminate|]. intros (Hext & Hpos & _).
    assert (false = true) as [=]. apply Hsel. done.
Qed.

(** X3: [load_dir] returns exactly when every selected file loads: whether a
    file that is not selected exists or parses does not matter. *)
Theorem load_dir_returns_iff (fs : filesystem) (data_dir : string)
    (entries : list string) (n_files : option Z) :
  fs_lookup fs data_dir = Some (Dir entries) →
  (∃ loaded, (load_dir fs (Some data_dir) n_files).2 = inr loaded) ↔
  ∀ fname i, entries !! i = Some fname → str_endswith fname ".jsonl" = true →
             within_cap n_files i = true →
             ∃ records, load_entry fs (Some data_dir) fname = inr records.
Proof.
  intros Hdir. rewrite (load_dir_listed _ _ _ _ Hdir). simpl.
  rewrite load_dir_entries_returns. split.
  - intros Hall fname i Hi Hext Hcap. apply Hall, selected_spec. split; [done|].
    by exists i.
  - intros Hall fname (Hext & i & Hi & Hcap)%selected_spec. by eapply Hall.
Qed.

Lemma load_dir_entries_frame (fs fs' : filesystem) (data_dir : option string)
    (n_files : option Z) (entries : list string) (k : nat) (acc : files) :
  (∀ fname, selected n_files k entries fname = true →
            load_entry fs data_dir fname = load_entry fs' data_dir fname) →
  load_dir_entries fs data_dir n_files k entries acc
  = load_dir_entries fs' data_dir n_files k entries acc.
Proof.
  revert k acc. induction entries as [|entry entries IH]; intros k acc Hsame;
    [reflexivity|].
  rewrite !load_dir_entries_step. cbn [selected] in Hsame.
  destruct (str_endswith entry ".jsonl" && within_cap n_files k) eqn:Hpass.
  - rewrite <- (Hsame entry) by (by rewrite String.eqb_refl).
    destruct (load_entry fs data_dir entry) as [e|records]; [reflexivity|]. simpl.
    apply IH. intros fname Hsel. apply Hsame. by rewrite Hsel, orb_true_r.
  - apply IH. intros fname Hsel. apply Hsame. by rewrite Hsel, orb_true_r.
Qed.

(** X4: [load_dir] reads the listing of its directory and the files it
    selects, nothing else: on two file systems that agree on these it
    prints and returns (or raises) the same. *)
Theorem load_dir_reads_selected_only (fs fs' : filesystem) (data_dir : string)
    (entries : list string) (n_files : option Z) :
  fs_lookup fs data_dir = Some (Dir entries) →
  fs_lookup fs' data_dir = Some (Dir entries) →
  (∀ fname i, entries !! i = Some fname → str_endswith fname ".jsonl" = true →
              within_cap n_files i = true →
              load_entry fs (Some data_dir) fname = load_entry fs' (Some data_dir) fname) →
  load_dir fs (Some data_dir) n_files = load_dir fs' (Some data_dir) n_files.
Proof.
  intros Hdir Hdir' Hsame.
  rewrite (load_dir_listed _ _ _ _ Hdir), (load_dir_listed _ _ _ _ Hdir').
  f_equal. apply load_dir_entries_frame.
  intros fname (Hext & i & Hi & Hcap)%selected_spec. by eapply Hsame.
Qed.

Lemma load_dir_entries_size (fs : filesystem) (data_dir : option string)
    (n_files : option Z) (entries : list string) (k : nat) (acc loaded : files) :
  load_dir_entries fs data_dir n_files k entries acc = inr loaded →
  (size loaded
   ≤ size acc + length (filter (λ fname, str_endswith fname ".jsonl" = true) entries))%nat
  ∧ ∀ cap, n_files = Some cap → (size loaded ≤ size acc + (Z.to_nat cap - k))%nat.
Proof.
  revert k acc. induction entries as [|entry entries IH]; intros k acc.
  - intros [= <-]. split; [simpl; lia | intros; lia].
  - rewrite load_dir_entries_step, filter_cons.
    destruct (str_endswith entry ".jsonl") eqn:Hext; simpl.
    + destruct (within_cap n_files k) eqn:Hcap.
      * destruct (load_entry fs data_dir entry) as [e|records]; [discriminate|]. simpl.
        intros [Hcount Hbound]%IH.
        assert (size (<[entry := records]> acc) ≤ S (size acc))%nat as Hgrow.
        { rewrite map_size_insert. destruct (acc !! entry); simpl; lia. }
        split; [lia|].
        intros cap ->. specialize (Hbound cap eq_refl).
        simpl in Hcap. apply Z.ltb_lt in Hcap. lia.
      * intros [Hcount Hbound]%IH. split; [lia|]. intros cap Hn. specialize (Hbound cap Hn). lia.
    + intros [Hcount Hbound]%IH. split; [lia|]. intros cap Hn. specialize (Hbound cap Hn). lia.
Qed.

(** X5: The mapping [load_dir] returns never has more entries than the
    directory lists names ending in [.jsonl], and never more than the cap. *)
Theorem load_dir_size (fs : filesystem) (data_dir : string) (entries : list string)
    (n_files : option Z) (loaded : files) :
  fs_lookup fs data_dir = Some (Dir entries) →
  (load_dir fs (Some data_dir) n_files).2 = inr loaded →
  (size loaded ≤ length (filter (λ fname, str_endswith fname ".jsonl" = true) entries))%nat
  ∧ ∀ cap, n_files = Some cap → (Z.of_nat (size loaded) ≤ Z.max 0 cap)%Z.
Proof.
  intros Hdir. rewrite (load_dir_listed _ _ _ _ Hdir). simpl.
  intros [Hcount Hbound]%load_dir_entries_size. rewrite map_size_empty in *.
  split; [lia|]. intros cap Hn. specialize (Hbound cap Hn). lia.
Qed.

Lemma load_dir_entries_none_selected (fs : filesystem) (data_dir : option string)
    (n_files : option Z) (entries : list string) (k : nat) (acc : files) :
  (∀ fname, selected n_files k entries fname = false) →
  load_dir_entries fs data_dir n_files k entries acc = inr acc.
Proof.
  revert k. induction entries as [|entry entries IH]; intros k Hnone; [reflexivity|].
  rewrite load_dir_entries_step. pose proof (Hnone entry) as Hentry. cbn [selected] in *.
  rewrite String.eqb_refl in Hentry. cbn [andb] in Hentry.
  apply orb_false_iff in Hentry as [-> _].
  apply IH. intros fname. specialize (Hnone fname). by apply orb_false_iff in Hnone as [_ ?].
Qed.

(** X6: A cap of zero, or a negative cap, makes [load_dir] return the empty
    mapping for every directory it can list, without opening a file. *)
Theorem load_dir_cap_nonpositive (fs : filesystem) (data_dir : string)
    (entries : list string) (cap : Z) :
  fs_lookup fs data_dir = Some (Dir entries) →
  (cap ≤ 0)%Z →
  load_dir fs (Some data_dir) (Some cap) = ([Msg_data_dir (Some data_dir)], inr ∅).
Proof.
  intros Hdir Hcap. rewrite (load_dir_listed _ _ _ _ Hdir). f_equal.
  apply load_dir_entries_none_selected. intros fname.
  destruct (selected (Some cap) 0 entries fname) eqn:Hsel; [|done].
  apply selected_spec in Hsel as (_ & i & _ & Hlt). simpl in Hlt.
  apply Z.ltb_lt in Hlt. lia.
Qed.

Lemma within_cap_le (n n' : option Z) (k : nat) :
  cap_le n n' → within_cap n k = true → within_cap n' k = true.
Proof.
  destruct n as [a|], n' as [b|]; simpl; try done.
  intros Hle Hlt%Z.ltb_lt. apply Z.ltb_lt. lia.
Qed.

(** X7: Raising the cap only adds entries: if [load_dir] returns under a cap,
    it returns under every lower cap, with a mapping contained in the
    first. *)
Theorem load_dir_cap_monotone (fs : filesystem) (data_dir : string)
    (entries : list string) (n n' : option Z) (loaded' : files) :
  fs_lookup fs data_dir = Some (Dir entries) →
  cap_le n n' →
  (load_dir fs (Some data_dir) n').2 = inr loaded' →
  ∃ loaded, (load_dir fs (Some data_dir) n).2 = inr loaded ∧ loaded ⊆ loaded'.
Proof.
  intros Hdir Hle. rewrite !(load_dir_listed _ _ _ _ Hdir). simpl. intros Hrun'.
  assert (∀ fname, selected n 0 entries fname = true →
                   selected n' 0 entries fname = true) as Hsel.
  { intros fname (Hext & i & Hi & Hcap)%selected_spec. apply selected_spec.
    split; [done|]. exists i. eauto using within_cap_le. }
  destruct (proj2 (load_dir_entries_returns fs (Some data_dir) n entries 0 ∅))
    as [loaded Hrun].
  { intros fname Hfname%Hsel.
    by apply (proj1 (load_dir_entries_returns fs (Some data_dir) n' entries 0 ∅));
      [eexists|]. }
  exists loaded. split; [done|]. apply map_subseteq_spec. intros fname records.
  rewrite (load_dir_entries_lookup _ _ _ _ _ _ _ fname Hrun),
          (load_dir_entries_lookup _ _ _ _ _ _ _ fname Hrun').
  destruct (selected n 0 entries fname) eqn:Hfname; [|by rewrite lookup_empty].
  by rewrite (Hsel _ Hfname).
Qed.

(** The comprehension raises what the first selected file that fails to
    load raises. *)
Lemma load_dir_entries_raises (fs : filesystem) (data_dir : option string)
    (n_files : option Z) (entries : list string) (k : nat) (acc : files) (e : exn) :
  load_dir_entries fs data_dir n_files k entries acc = inl e ↔
  ∃ i fname,
    entries !! i = Some fname ∧ str_endswith fname ".jsonl" = true
    ∧ within_cap n_files (k + i) = true ∧ load_entry fs data_dir fname = inl e
    ∧ ∀ j earlier, (j < i)%nat → entries !! j = Some earlier →
        str_endswith earlier ".jsonl" = true → within_cap n_files (k + j) = true →
        ∃ records, load_entry fs data_dir earlier = inr records.
Proof.
  revert k acc. induction entries as [|entry entries IH]; intros k acc.
  - split; [discriminate | by intros (i & fname & [=] & _)].
  - rewrite load_dir_entries_step.
    assert (∀ acc',
      load_dir_entries fs data_dir n_files (S k) entries acc' = inl e ↔
      ∃ i fname,
        (entry :: entries) !! S i = Some fname ∧ str_endswith fname ".jsonl" = true
        ∧ within_cap n_files (k + S i) = true ∧ load_entry fs data_dir fname = inl e
        ∧ ∀ j earlier, (j < i)%nat → (entry :: entries) !! S j = Some earlier →
            str_endswith earlier ".jsonl" = true →
            within_cap n_files (k + S j) = true →
            ∃ records, load_entry fs data_dir earlier = inr records) as Hshift.
    { intros acc'. rewrite IH. simpl.
      split; intros (i & fname & Hi & Hext & Hcap & Hload & Hfirst);
        exists i, fname; (split; [done|]); (split; [done|]).
      - rewrite Nat.add_succ_r. split; [done|]. split; [done|].
        intros j earlier. rewrite Nat.add_succ_r. apply Hfirst.
      - rewrite Nat.add_succ_r in Hcap. split; [done|]. split; [done|].
        intros j earlier Hj Hearlier Hext' Hcap'. eapply Hfirst; [done..|].
        by rewrite Nat.add_succ_r. }
    destruct (str_endswith entry ".jsonl" && within_cap n_files k) eqn:Hpass.
    + apply andb_true_iff in Hpass as [Hext Hcap].
      destruct (load_entry fs data_dir entry) as [e'|records] eqn:Hentry; simpl.
      * split.
        -- intros [= <-]. exists 0, entry. rewrite Nat.add_0_r.
           repeat (split; [done|]). intros j earlier Hj. lia.
        -- intros ([|i] & fname & Hi & _ & _ & Hload & Hfirst).
           ++ injection Hi as <-. congruence.
           ++ destruct (Hfirst 0 entry) as [records Hrecords];
                [lia | done | done | by rewrite Nat.add_0_r |]. congruence.
      * rewrite Hshift. split.
        -- intros (i & fname & Hi & Hext' & Hcap' & Hload & Hfirst).
           exists (S i), fname. repeat (split; [done|]).
           intros [|j] earlier Hj Hearlier Hext'' Hcap''.
           ++ injection Hearlier as <-. by eexists.
           ++ eapply Hfirst; [|done..]. lia.
        -- intros ([|i] & fname & Hi & Hext' & Hcap' & Hload & Hfirst).
           ++ injection Hi as <-. congruence.
           ++ exists i, fname. repeat (split; [done|]).
              intros j earlier Hj. apply Hfirst. lia.
    + rewrite Hshift. split.
      * intros (i & fname & Hi & Hext' & Hcap' & Hload & Hfirst).
        exists (S i), fname. repeat (split; [done|]).
        intros [|j] earlier Hj Hearlier Hext'' Hcap''.
        -- injection Hearlier as <-. rewrite Nat.add_0_r in Hcap''.
           rewrite Hext'', Hcap'' in Hpass. discriminate.
        -- eapply Hfirst; [|done..]. lia.
      * intros ([|i] & fname & Hi & Hext' & Hcap' & Hload & Hfirst).
        -- injection Hi as <-. rewrite Nat.add_0_r in Hcap'.
           rewrite Hext', Hcap' in Hpass. discriminate.
        -- exists i, fname. repeat (split; [done|]).
           intros j earlier Hj. apply Hfirst. lia.
Qed.

(** X8: The exceptions of [load_dir]: [FileNotFoundError] for a directory that
    does not exist, [NotADirectoryError] for a regular file, and otherwise
    the exception of the first selected file, in listing order, that fails
    to load. *)
Theorem load_dir_errors (fs : filesystem) (data_dir : string) (n_files : option Z)
    (e : exn) :
  (load_dir fs (Some data_dir) n_files).2 = inl e ↔
    (e = FileNotFoundError ∧ os_path_exists fs data_dir = false)
    ∨ (e = NotADirectoryError ∧ ∃ text, fs_lookup fs data_dir = Some (File text))
    ∨ (∃ entries i fname,
         fs_lookup fs data_dir = Some (Dir entries)
         ∧ entries !! i = Some fname ∧ str_endswith fname ".jsonl" = true
         ∧ within_cap n_files i = true
         ∧ load_entry fs (Some data_dir) fname = inl e
         ∧ ∀ j earlier, (j < i)%nat → entries !! j = Some earlier →
             str_endswith earlier ".jsonl" = true → within_cap n_files j = true →
             ∃ records, load_entry fs (Some data_dir) earlier = inr records).
Proof.
  destruct (fs_lookup fs data_dir) as [[text|entries]|] eqn:Hdir.
  - assert ((load_dir fs (Some data_dir) n_files).2 = inl NotADirectoryError) as ->.
    { unfold load_dir, given_but_missing, os_path_exists, os_listdir. simpl.
      rewrite Hdir. by rewrite andb_false_r. }
    unfold os_path_exists. rewrite Hdir. split.
    + intros [= <-]. right. left. split; [done | by eexists].
    + intros [[_ [=]]|[[-> _]|(entries & i & fname & [=] & _)]]. done.
  - rewrite (load_dir_listed _ _ _ _ Hdir). simpl.
    rewrite load_dir_entries_raises. unfold os_path_exists. rewrite Hdir. split.
    + intros (i & fname & Hrest). right. right. by exists entries, i, fname.
    + intros [[_ [=]]|[(_ & text & [=])|(entries' & i & fname & [= <-] & Hrest)]].
      by exists i, fname.
  - assert ((load_dir fs (Some data_dir) n_files).2 = inl FileNotFoundError) as ->.
    { unfold load_dir, given_but_missing, os_path_exists, os_listdir. simpl.
      rewrite Hdir. by destruct (negb (String.eqb data_dir "") && negb false). }
    unfold os_path_exists. rewrite Hdir. split.
    + intros [= <-]. by left.
    + intros [[-> _]|[(_ & text & [=])|(entries & i & fname & [=] & _)]]. done.
Qed.

(** ** More about [load_all_data] *)

Section walk_result.
Variable fs : filesystem.
Variable data_dir : string.
Variable n_files : option Z.

Lemma loaded_for_functional (lang_dir : string) (loaded loaded' : files) :
  loaded_for fs data_dir n_files lang_dir loaded →
  loaded_for fs data_dir n_files lang_dir loaded' → loaded = loaded'.
Proof.
  intros (dirlang & Hjoin & Hentry) (dirlang' & Hjoin' & Hentry').
  assert (dirlang' = dirlang) as -> by congruence.
  destruct (present fs dirlang); congruence.
Qed.

Lemma load_lang_stores (seen : list string) (loaded_data : corpus) (lang_dir : string)
    out (loaded_data' : corpus) :
  stores fs data_dir n_files seen loaded_data →
  load_lang fs (Some data_dir) n_files loaded_data lang_dir = (out, inr loaded_data') →
  stores fs data_dir n_files (seen ++ [lang_dir]) loaded_data'.
Proof.
  intros Hstores Hstep.
  assert (∃ loaded, loaded_for fs data_dir n_files lang_dir loaded
                    ∧ loaded_data' !! lang_dir = Some loaded) as (loaded & Hfor & Hnew).
  { apply load_lang_returns in Hstep as (dirlang & Hjoin & Hcases).
    destruct Hcases as [(Hgone & _ & ->)|[(Hhere & Hfull & _ & ->)|(Hhere & _ & l & Hl & _ & ->)]].
    - rewrite ensure_entry_lookup.
      destruct (loaded_data !! lang_dir) as [stored|] eqn:Hstored; simpl.
      + exists stored. split; [|done]. by apply Hstores in Hstored as [_ ?].
      + exists ∅. split; [|done]. exists dirlang. by rewrite Hgone.
    - destruct (loaded_data !! lang_dir) as [stored|] eqn:Hstored; simpl in Hfull.
      + exists stored. split; [|done]. by apply Hstores in Hstored as [_ ?].
      + by rewrite map_size_empty in Hfull.
    - exists l. rewrite lookup_insert_eq. split; [|done]. exists dirlang.
      by rewrite Hhere. }
  intros other stored. destruct (decide (lang_dir = other)) as [<-|Hne].
  - rewrite Hnew. split.
    + intros [= <-]. split; [|done]. apply elem_of_app. right. left.
    + intros [_ Hfor']. f_equal. by eapply loaded_for_functional.
  - destruct (load_lang_untouched _ _ _ _ _ _ _ other Hstep) as [_ Hsame].
    rewrite (Hsame Hne), (Hstores other stored), elem_of_app, list_elem_of_singleton.
    split; [intros [? ?]; split; [by left | done]|].
    intros [[?|?] ?]; [done | congruence].
Qed.

Lemma walk_stores (names seen : list string) (loaded_data : corpus) out
    (loaded_data' : corpus) :
  stores fs data_dir n_files seen loaded_data →
  io_foldl (load_lang fs (Some data_dir) n_files) loaded_data names
  = (out, inr loaded_data') →
  stores fs data_dir n_files (seen ++ names) loaded_data'.
Proof.
  revert seen loaded_data out. induction names as [|name names IH];
    intros seen loaded_data out Hstores.
  - intros [= <- <-]. by rewrite app_nil_r.
  - intros (out1 & loaded_data1 & out2 & Hstep & Hrest & ->)%io_foldl_cons_returns.
    rewrite cons_middle, app_assoc. eapply IH; [|exact Hrest].
    by eapply load_lang_stores.
Qed.

(** An iteration raises only what [load_dir] raises on a present
    subdirectory, right after that call has printed its directory. *)
Lemma load_lang_raises (loaded_data : corpus) (lang_dir : string) out (e : exn) :
  load_lang fs (Some data_dir) n_files loaded_data lang_dir = (out, inl e) →
  ∃ dirlang, os_path_join (Some data_dir) lang_dir = inr dirlang
    ∧ present fs dirlang = true
    ∧ (load_dir fs (Some dirlang) n_files).2 = inl e
    ∧ out = [Msg_checking dirlang true true; Msg_loading dirlang;
             Msg_data_dir (Some dirlang)].
Proof.
  unfold load_lang.
  destruct (os_path_join_Some data_dir lang_dir) as [dirlang Hjoin].
  rewrite Hjoin. simpl. fold (present fs dirlang).
  destruct (present fs dirlang) eqn:Hpresent; [|discriminate].
  apply andb_true_iff in Hpresent as Hboth. destruct Hboth as [-> ->].
  rewrite ensure_entry_idemp, ensure_entry_lookup.
  destruct (Nat.eqb (size (default ∅ (loaded_data !! lang_dir))) 0); [|discriminate].
  rewrite load_dir_prints.
  destruct (load_dir fs (Some dirlang) n_files).2 as [e'|loaded] eqn:Hload;
    [|discriminate].
  simpl. intros [= <- <-]. by exists dirlang.
Qed.

Lemma walk_raises (names : list string) (loaded_data : corpus) out (e : exn) :
  io_foldl (load_lang fs (Some data_dir) n_files) loaded_data names = (out, inl e) →
  ∃ lang_dir dirlang,
    lang_dir ∈ names ∧ os_path_join (Some data_dir) lang_dir = inr dirlang
    ∧ present fs dirlang = true
    ∧ (load_dir fs (Some dirlang) n_files).2 = inl e
    ∧ last out = Some (Msg_data_dir (Some dirlang)).
Proof.
  revert loaded_data out. induction names as [|name names IH]; intros loaded_data out;
    [discriminate|].
  simpl. destruct (load_lang fs (Some data_dir) n_files loaded_data name)
    as [out1 [e1|loaded_data1]] eqn:Hstep; simpl.
  - intros [= <- <-].
    apply load_lang_raises in Hstep as (dirlang & Hjoin & Hhere & Hload & ->).
    exists name, dirlang. split; [left|]. done.
  - destruct (io_foldl _ loaded_data1 names) as [out2 r] eqn:Hrest.
    intros [= <- ->].
    apply IH in Hrest as (lang_dir & dirlang & Hin & Hjoin & Hhere & Hload & Hlast).
    exists lang_dir, dirlang. split; [by right|]. repeat (split; [done|]).
    destruct out2 as [|m out2]; [discriminate|]. by rewrite last_app_cons.
Qed.
End walk_result.

Lemma load_all_data_stores (fs : filesystem) (data_dir : string)
    (names : list string) (n_files : option Z) out (loaded_data : corpus) :
  os_path_exists fs data_dir = true →
  names ≠ [] →
  load_all_data fs (Some data_dir) (Py_list names) n_files = (out, inr loaded_data) →
  stores fs data_dir n_files names loaded_data.
Proof.
  intros Hroot Hnames (walked & Hwalk & _)%load_all_data_returns; [|done..].
  apply (walk_stores fs data_dir n_files names [] ∅ walked loaded_data); [|done].
  intros lang_dir loaded. rewrite lookup_empty. split; [discriminate|].
  intros [Hin _]. by apply elem_of_nil in Hin.
Qed.

Lemma load_all_data_loads (fs : filesystem) (data_dir : string)
    (names : list string) (n_files : option Z) out (loaded_data : corpus) :
  os_path_exists fs data_dir = true →
  names ≠ [] →
  load_all_data fs (Some data_dir) (Py_list names) n_files = (out, inr loaded_data) →
  ∀ lang_dir dirlang, lang_dir ∈ names →
    os_path_join (Some data_dir) lang_dir = inr dirlang →
    present fs dirlang = true →
    ∃ loaded, (load_dir fs (Some dirlang) n_files).2 = inr loaded.
Proof.
  intros Hroot Hnames (walked & Hwalk & _)%load_all_data_returns; [|done..].
  intros lang_dir dirlang Hin Hjoin Hhere.
  by eapply (walk_first_load fs data_dir n_files lang_dir dirlang Hjoin Hhere
               names ∅ walked loaded_data).
Qed.

(** X11: The mapping [load_all_data] returns, key by key: its keys are the
    listed names, and the value of a name is what [load_dir] returns on its
    subdirectory if that is present, the empty mapping if not. *)
Theorem load_all_data_lookup (fs : filesystem) (data_dir : string)
    (names : list string) (n_files : option Z) out (loaded_data : corpus) :
  os_path_exists fs data_dir = true →
  names ≠ [] →
  load_all_data fs (Some data_dir) (Py_list names) n_files = (out, inr loaded_data) →
  ∀ lang_dir loaded,
    loaded_data !! lang_dir = Some loaded ↔
    lang_dir ∈ names ∧ loaded_for fs data_dir n_files lang_dir loaded.
Proof.
  intros Hroot Hnames (walked & Hwalk & _)%load_all_data_returns; [|done..].
  assert (stores fs data_dir n_files [] ∅) as Hstart.
  { intros lang_dir loaded. rewrite lookup_empty. split; [discriminate|].
    intros [Hin _]. by apply elem_of_nil in Hin. }
  exact (walk_stores fs data_dir n_files names [] ∅ walked loaded_data Hstart Hwalk).
Qed.

(** X12: [load_all_data] returns exactly when [load_dir] returns on the
    subdirectory of every listed name that is present. *)
Theorem load_all_data_returns_iff (fs : filesystem) (data_dir : string)
    (names : list string) (n_files : option Z) :
  os_path_exists fs data_dir = true →
  names ≠ [] →
  (∃ out loaded_data,
     load_all_data fs (Some data_dir) (Py_list names) n_files = (out, inr loaded_data)) ↔
  ∀ lang_dir dirlang, lang_dir ∈ names →
    os_path_join (Some data_dir) lang_dir = inr dirlang →
    present fs dirlang = true →
    ∃ loaded, (load_dir fs (Some dirlang) n_files).2 = inr loaded.
Proof.
  intros Hroot Hnames. split.
  - intros (out & loaded_data & Hrun). by eapply load_all_data_loads.
  - intros Hloads. rewrite (load_all_data_valid _ _ _ _ Hroot Hnames).
    destruct (walk_total fs data_dir n_files names ∅ Hloads) as (walked & loaded_data & ->).
    by do 2 eexists.
Qed.

(** X13: Past its two argument checks [load_all_data] raises nothing of its
    own: an exception is one that [load_dir] raised on the present
    subdirectory of a listed name, the last thing printed is the line
    [load_dir] prints for that subdirectory, and no summary follows. *)
Theorem load_all_data_errors (fs : filesystem) (data_dir : string)
    (names : list string) (n_files : option Z) out (e : exn) :
  os_path_exists fs data_dir = true →
  names ≠ [] →
  load_all_data fs (Some data_dir) (Py_list names) n_files = (out, inl e) →
  ∃ lang_dir dirlang,
    lang_dir ∈ names ∧ os_path_join (Some data_dir) lang_dir = inr dirlang
    ∧ present fs dirlang = true
    ∧ (load_dir fs (Some dirlang) n_files).2 = inl e
    ∧ last out = Some (Msg_data_dir (Some dirlang)).
Proof.
  intros Hroot Hnames. rewrite (load_all_data_valid _ _ _ _ Hroot Hnames).
  destruct (io_foldl _ ∅ names) as [walked [e'|loaded_data]] eqn:Hwalk; simpl;
    [|discriminate].
  intros [= <- <-]. by eapply walk_raises.
Qed.

(** X14: The mapping [load_all_data] returns depends on which names are listed,
    not on their order or on how often each is listed. *)
Theorem load_all_data_order_irrelevant (fs : filesystem) (data_dir : string)
    (names names' : list string) (n_files : option Z) out (loaded_data : corpus) :
  os_path_exists fs data_dir = true →
  names ≠ [] →
  (∀ lang_dir, lang_dir ∈ names ↔ lang_dir ∈ names') →
  load_all_data fs (Some data_dir) (Py_list names) n_files = (out, inr loaded_data) →
  ∃ out', load_all_data fs (Some data_dir) (Py_list names') n_files
          = (out', inr loaded_data).
Proof.
  intros Hroot Hnames Hsame Hrun.
  assert (names' ≠ []) as Hnames'.
  { destruct names as [|name names]; [done|]. intros ->.
    by apply (elem_of_nil name), Hsame; left. }
  destruct (walk_total fs data_dir n_files names' ∅) as (walked' & loaded_data' & Hwalk').
  { intros lang_dir dirlang Hin%Hsame.
    exact (load_all_data_loads _ _ _ _ _ _ Hroot Hnames Hrun lang_dir dirlang Hin). }
  assert (load_all_data fs (Some data_dir) (Py_list names') n_files
          = ((walked' ++ [Msg_summary (size loaded_data') (count_files loaded_data');
                          Msg_success (Some data_dir)])%list, inr loaded_data'))
    as Hrun' by (by rewrite load_all_data_valid, Hwalk').
  eexists. rewrite Hrun'. do 2 f_equal. symmetry. apply map_eq. intros lang_dir.
  apply option_eq. intros loaded.
  rewrite (load_all_data_stores _ _ _ _ _ _ Hroot Hnames Hrun lang_dir loaded),
          (load_all_data_stores _ _ _ _ _ _ Hroot Hnames' Hrun' lang_dir loaded).
  by rewrite Hsame.
Qed.

Lemma count_files_bound (loaded_data : corpus) (bound : nat) :
  (∀ lang_dir loaded, loaded_data !! lang_dir = Some loaded → (size loaded ≤ bound)%nat) →
  (count_files loaded_data ≤ size loaded_data * bound)%nat.
Proof.
  unfold count_files.
  induction loaded_data as [|lang_dir loaded loaded_data Hfresh IH] using map_ind;
    intros Hbound.
  - rewrite map_fold_empty. lia.
  - rewrite map_fold_insert_L; [|intros; lia | done].
    rewrite map_size_insert_None by done.
    pose proof (Hbound lang_dir loaded (lookup_insert_eq _ _ _)).
    assert (map_fold (λ _ v acc, size v + acc) 0 loaded_data
            ≤ size loaded_data * bound)%nat; [|lia].
    apply IH. intros other stored Hother. apply (Hbound other).
    rewrite lookup_insert_ne; [done|]. intros ->. congruence.
Qed.

(** X15: The run ends by printing the summary and the success line.  The
    summary counts one language per distinct listed name, and a number of
    files that is at most the cap for each of them. *)
Theorem load_all_data_summary (fs : filesystem) (data_dir : string)
    (names : list string) (n_files : option Z) out (loaded_data : corpus) :
  os_path_exists fs data_dir = true →
  names ≠ [] →
  load_all_data fs (Some data_dir) (Py_list names) n_files = (out, inr loaded_data) →
  ∃ walked n_loaded,
    out = (walked ++ [Msg_summary (size (list_to_set names : gset string)) n_loaded;
                      Msg_success (Some data_dir)])%list
    ∧ ∀ cap, n_files = Some cap →
        (n_loaded ≤ size (list_to_set names : gset string) * Z.to_nat cap)%nat.
Proof.
  intros Hroot Hnames Hrun.
  pose proof (load_all_data_stores _ _ _ _ _ _ Hroot Hnames Hrun) as Hlookup.
  apply load_all_data_returns in Hrun as (walked & Hwalk & ->); [|done..].
  apply walk_entries in Hwalk as [Hdom _].
  assert (size loaded_data = size (list_to_set names : gset string)) as Hsize.
  { rewrite <- (size_dom (D:=gset string)). f_equal. apply set_eq. intros lang_dir.
    rewrite elem_of_dom, elem_of_list_to_set. split.
    - intros [loaded Hloaded]. by apply Hlookup in Hloaded as [? _].
    - intros Hin. apply Hdom. by right. }
  exists walked, (count_files loaded_data). rewrite Hsize. split; [done|].
  intros cap ->. rewrite <- Hsize. apply count_files_bound.
  intros lang_dir loaded (_ & dirlang & _ & Hentry)%Hlookup.
  unfold present, os_path_exists, os_path_isdir in Hentry.
  destruct (fs_lookup fs dirlang) as [[text|entries]|] eqn:Hdir; simpl in Hentry;
    try (subst loaded; rewrite map_size_empty; lia).
  rewrite (load_dir_listed _ _ _ _ Hdir) in Hentry.
  apply load_dir_entries_size in Hentry as [_ Hcap].
  specialize (Hcap cap eq_refl). rewrite map_size_empty in Hcap. lia.
Qed.



(** ** More about [identify_missing_keys] *)

Lemma identify_missing_keys_sets (loaded_data : corpus) :
  (∀ entry, in_corpus entry loaded_data → is_object entry = true) →
  ∃ set_of_keys missing_keys,
    identify_missing_keys loaded_data
    = ([Msg_set_of_keys set_of_keys; Msg_missing_keys missing_keys],
       inr (set_of_keys, missing_keys))
    ∧ (∀ key, key ∈ set_of_keys ↔
         ∃ entry, in_corpus entry loaded_data ∧ has_key key entry)
    ∧ (∀ key, key ∈ missing_keys ↔
         key ∈ set_of_keys
         ∧ ∃ entry, in_corpus entry loaded_data ∧ ¬ has_key key entry).
Proof.
  intros Hobj.
  assert (∀ entry, entry ∈ corpus_entries loaded_data → is_object entry = true)
    as Hobj' by (intros entry Hin; by apply Hobj, elem_of_corpus_entries).
  destruct (union_pass _ ∅ Hobj') as (set_of_keys & Hpass1 & Hall).
  destruct (missing_pass set_of_keys _ ∅ Hobj') as (missing_keys & Hpass2 & Hmissing).
  exists set_of_keys, missing_keys. split; [|split].
  - unfold identify_missing_keys. rewrite for_each_entry_flat, Hpass1. simpl.
    by rewrite for_each_entry_flat, Hpass2.
  - intros key. rewrite Hall. setoid_rewrite elem_of_corpus_entries.
    split; [intros [Hempty|?]; [by apply not_elem_of_empty in Hempty | done] | by right].
  - intros key. rewrite Hmissing. setoid_rewrite elem_of_corpus_entries.
    split; [intros [Hempty|?]; [by apply not_elem_of_empty in Hempty | done] | by right].
Qed.

Lemma has_key_dec (key : string) (entry : record) :
  has_key key entry ∨ ¬ has_key key entry.
Proof.
  destruct entry as [| | | | |items|members]; simpl; try (right; tauto).
  destruct (decide (key ∈ members.*1)); [by left | by right].
Qed.

(** X17: No key is reported missing exactly when all records have the same
    keys; the set of all keys is then the key set of each record. *)
Theorem identify_missing_keys_uniform (loaded_data : corpus) :
  (∀ entry, in_corpus entry loaded_data → is_object entry = true) →
  ∃ set_of_keys missing_keys,
    (identify_missing_keys loaded_data).2 = inr (set_of_keys, missing_keys)
    ∧ (missing_keys = ∅ ↔
         ∀ entry entry', in_corpus entry loaded_data → in_corpus entry' loaded_data →
           ∀ key, has_key key entry ↔ has_key key entry')
    ∧ (missing_keys = ∅ →
         ∀ entry, in_corpus entry loaded_data →
           ∀ key, key ∈ set_of_keys ↔ has_key key entry).
Proof.
  intros Hobj.
  destruct (identify_missing_keys_sets loaded_data Hobj)
    as (set_of_keys & missing_keys & Hrun & Hall & Hmissing).
  exists set_of_keys, missing_keys. split; [by rewrite Hrun|].
  assert (missing_keys = ∅ →
          ∀ entry, in_corpus entry loaded_data →
            ∀ key, key ∈ set_of_keys ↔ has_key key entry) as Hcommon.
  { intros Hnone entry Hin key. split.
    - intros Hkey. destruct (has_key_dec key entry) as [?|Hlack]; [done|].
      assert (key ∈ missing_keys) as Hbad by (apply Hmissing; eauto).
      rewrite Hnone in Hbad. by apply not_elem_of_empty in Hbad.
    - intros Hkey. apply Hall. eauto. }
  split; [split|done].
  - intros Hnone entry entry' Hin Hin' key.
    by rewrite <- (Hcommon Hnone entry Hin key), <- (Hcommon Hnone entry' Hin' key).
  - intros Huniform. apply set_eq. intros key. split; [|by intros ?%not_elem_of_empty].
    intros (Hkey & lacking & Hin & Hlack)%Hmissing.
    apply Hall in Hkey as (having & Hin' & Hhas).
    destruct Hlack. by apply (Huniform having lacking Hin' Hin key).
Qed.

Lemma forallb_false {A} (f : A → bool) (l : list A) :
  forallb f l = false → ∃ x, x ∈ l ∧ f x = false.
Proof.
  induction l as [|x l IH]; simpl; [discriminate|].
  destruct (f x) eqn:Hx; simpl.
  - intros (y & Hin & Hy)%IH. exists y. split; [by right | done].
  - intros _. exists x. split; [left | done].
Qed.

Lemma union_pass_raises (entries : list record) (acc : gset string) :
  (∃ entry, entry ∈ entries ∧ is_object entry = false) →
  rfoldl (λ set_of_keys entry,
            keys ←r entry_keys entry ; ret (set_of_keys ∪ keys)) acc entries
  = inl AttributeError.
Proof.
  revert acc. induction entries as [|entry entries IH]; intros acc (bad & Hin & Hbad);
    [by apply elem_of_nil in Hin|].
  simpl. destruct (is_object entry) eqn:Hentry.
  - destruct (entry_keys_object entry Hentry) as (keys & -> & _). simpl.
    apply IH. exists bad. split; [|done].
    apply elem_of_cons in Hin as [->|?]; [congruence | done].
  - by destruct entry.
Qed.

Lemma identify_missing_keys_fails (loaded_data : corpus) :
  (∃ entry, in_corpus entry loaded_data ∧ is_object entry = false) →
  identify_missing_keys loaded_data = ([], inl AttributeError).
Proof.
  intros (bad & Hin%elem_of_corpus_entries & Hbad).
  unfold identify_missing_keys. rewrite for_each_entry_flat.
  rewrite union_pass_raises; [done|]. by exists bad.
Qed.

(** X18: [identify_missing_keys] fails exactly when some record is not an
    object: it then raises [AttributeError] and prints neither set.  It
    raises nothing else. *)
Theorem identify_missing_keys_raises (loaded_data : corpus) :
  (identify_missing_keys loaded_data = ([], inl AttributeError) ↔
   ∃ entry, in_corpus entry loaded_data ∧ is_object entry = false)
  ∧ ∀ out e, identify_missing_keys loaded_data = (out, inl e) →
             out = [] ∧ e = AttributeError.
Proof.
  destruct (forallb is_object (corpus_entries loaded_data)) eqn:Hall.
  - pose proof (all_objects_in_corpus _ Hall) as Hobj.
    destruct (identify_missing_keys_sets loaded_data Hobj)
      as (set_of_keys & missing_keys & -> & _). split; [split; [discriminate|]|].
    + intros (entry & Hin & Hbad). rewrite (Hobj entry Hin) in Hbad. discriminate.
    + intros out e. discriminate.
  - apply forallb_false in Hall as (bad & Hin%elem_of_corpus_entries & Hbad).
    rewrite identify_missing_keys_fails by (by exists bad).
    split; [split; [|done]|].
    + intros _. by exists bad.
    + by intros out e [= <- <-].
Qed.


(** X9: In a directory that lists nothing but loadable [.jsonl] files, each
    once, the cap does count files: under a cap between zero and the number
    of files, [load_dir] returns exactly that many entries, those of the
    names listed first. *)
Theorem load_dir_cap_exact (fs : filesystem) (data_dir : string)
    (entries : list string) (cap : nat) :
  fs_lookup fs data_dir = Some (Dir entries) →
  NoDup entries →
  (∀ fname, fname ∈ entries →
     str_endswith fname ".jsonl" = true
     ∧ ∃ records, load_entry fs (Some data_dir) fname = inr records) →
  (cap ≤ length entries)%nat →
  ∃ loaded,
    (load_dir fs (Some data_dir) (Some (Z.of_nat cap))).2 = inr loaded
    ∧ size loaded = cap
    ∧ ∀ fname, is_Some (loaded !! fname) ↔ fname ∈ take cap entries.
Proof.
  intros Hdir Hnodup Hvalid Hcap. rewrite (load_dir_listed _ _ _ _ Hdir). simpl.
  destruct (load_dir_entries_cap fs data_dir cap entries 0 ∅ Hnodup)
    as (loaded & Hrun & Hsize); [intros; apply lookup_empty | |].
  { intros fname [Hext [records Hload]]%Hvalid. split; [done|].
    unfold load_entry in Hload.
    destruct (os_path_join (Some data_dir) fname) as [e|path]; [discriminate|].
    by exists path, records. }
  exists loaded. split; [done|]. split; [rewrite Hsize, map_size_empty; lia|].
  intros fname. rewrite (load_dir_entries_lookup _ _ _ _ _ _ _ fname Hrun), lookup_empty.
  rewrite elem_of_take.
  destruct (selected (Some (Z.of_nat cap)) 0 entries fname) eqn:Hsel.
  - apply selected_spec in Hsel as (_ & i & Hi & Hlt). simpl in Hlt.
    apply Z.ltb_lt in Hlt.
    destruct (Hvalid fname) as [_ [records ->]]; [by eapply list_elem_of_lookup_2|].
    split; [|by eexists]. intros _. exists i. split; [done | lia].
  - split; [by intros [? [=]]|]. intros (i & Hi & Hlt).
    assert (selected (Some (Z.of_nat cap)) 0 entries fname = true) as Hyes; [|congruence].
    apply selected_spec. destruct (Hvalid fname) as [Hext _];
      [by eapply list_elem_of_lookup_2|].
    split; [done|]. exists i. split; [done|]. simpl. apply Z.ltb_lt. lia.
Qed.

(** ** Default arguments and absent data *)

(** X10: Called without a directory, [load_dir] lists the current directory:
    it returns the empty mapping if no name there is selected, and raises
    [TypeError], from joining [None] with the name, as soon as one is. *)
Theorem load_dir_no_directory (fs : filesystem) (entries : list string)
    (n_files : option Z) :
  fs_lookup fs "." = Some (Dir entries) →
  ((∀ fname i, entries !! i = Some fname → str_endswith fname ".jsonl" = true →
               within_cap n_files i = false) →
   load_dir fs None n_files = ([Msg_data_dir None], inr ∅))
  ∧ ((∃ fname i, entries !! i = Some fname ∧ str_endswith fname ".jsonl" = true
                 ∧ within_cap n_files i = true) →
     load_dir fs None n_files = ([Msg_data_dir None], inl TypeError)).
Proof.
  intros Hcwd.
  assert (load_dir fs None n_files
          = ([Msg_data_dir None], load_dir_entries fs None n_files 0 entries ∅)) as ->.
  { unfold load_dir, os_listdir. simpl. by rewrite Hcwd. }
  split.
  - intros Hnone. rewrite load_dir_entries_none_selected; [done|]. intros fname.
    destruct (selected n_files 0 entries fname) eqn:Hsel; [|done].
    apply selected_spec in Hsel as (Hext & i & Hi & Hcap).
    pose proof (Hnone fname i Hi Hext) as Hno. simpl in Hcap. congruence.
  - intros (fname & i & Hi & Hext & Hcap).
    assert (selected n_files 0 entries fname = true) as Hsel
      by (apply selected_spec; split; [done|]; by exists i).
    destruct (load_dir_entries fs None n_files 0 entries ∅) as [e|loaded] eqn:Hrun.
    + apply load_dir_entries_raises in Hrun as (j & bad & _ & _ & _ & Hload & _).
      unfold load_entry in Hload. simpl in Hload. by injection Hload as <-.
    + destruct (proj1 (load_dir_entries_returns fs None n_files entries 0 ∅)
                  (ex_intro _ loaded Hrun) fname Hsel) as [records Hload].
      discriminate Hload.
Qed.

Lemma no_records_no_keys (loaded_data : corpus) :
  (∀ entry, ¬ in_corpus entry loaded_data) →
  identify_missing_keys loaded_data
  = ([Msg_set_of_keys ∅; Msg_missing_keys ∅], inr (∅, ∅)).
Proof.
  intros Hnone.
  destruct (identify_missing_keys_sets loaded_data)
    as (set_of_keys & missing_keys & -> & Hall & Hmissing).
  { intros entry Hin. by destruct (Hnone entry). }
  assert (set_of_keys = ∅) as ->.
  { apply set_eq. intros key. rewrite Hall. split; [|by intros ?%not_elem_of_empty].
    intros (entry & Hin & _). by destruct (Hnone entry). }
  assert (missing_keys = ∅) as ->; [|done].
  apply set_eq. intros key. rewrite Hmissing. split; [|by intros ?%not_elem_of_empty].
  by intros [?%not_elem_of_empty _].
Qed.

(** X20: Loading and auditing when the data is not there: if no listed name
    has its subdirectory, [load_all_data] returns the mapping of each name
    to the empty mapping, and [identify_missing_keys] on it prints and
    returns two empty sets. *)
Theorem audit_of_absent_data (fs : filesystem) (data_dir : string)
    (names : list string) (n_files : option Z) :
  os_path_exists fs data_dir = true →
  names ≠ [] →
  (∀ lang_dir dirlang, lang_dir ∈ names →
     os_path_join (Some data_dir) lang_dir = inr dirlang → present fs dirlang = false) →
  ∃ out loaded_data,
    load_all_data fs (Some data_dir) (Py_list names) n_files = (out, inr loaded_data)
    ∧ (∀ lang_dir loaded, loaded_data !! lang_dir = Some loaded ↔
                          lang_dir ∈ names ∧ loaded = ∅)
    ∧ identify_missing_keys loaded_data
      = ([Msg_set_of_keys ∅; Msg_missing_keys ∅], inr (∅, ∅)).
Proof.
  intros Hroot Hnames Habsent.
  destruct (walk_total fs data_dir n_files names ∅) as (walked & loaded_data & Hwalk).
  { intros lang_dir dirlang Hin Hjoin Hhere.
    rewrite (Habsent lang_dir dirlang Hin Hjoin) in Hhere. discriminate. }
  assert (load_all_data fs (Some data_dir) (Py_list names) n_files
          = ((walked ++ [Msg_summary (size loaded_data) (count_files loaded_data);
                         Msg_success (Some data_dir)])%list, inr loaded_data))
    as Hrun by (by rewrite load_all_data_valid, Hwalk).
  pose proof (load_all_data_stores _ _ _ _ _ _ Hroot Hnames Hrun) as Hstores.
  assert (∀ lang_dir loaded, loaded_data !! lang_dir = Some loaded ↔
                             lang_dir ∈ names ∧ loaded = ∅) as Hempty.
  { intros lang_dir loaded. rewrite (Hstores lang_dir loaded). split.
    - intros (Hin & dirlang & Hjoin & Hentry). split; [done|].
      by rewrite (Habsent lang_dir dirlang Hin Hjoin) in Hentry.
    - intros [Hin ->]. split; [done|].
      destruct (os_path_join_Some data_dir lang_dir) as [dirlang Hjoin].
      exists dirlang. split; [done|]. by rewrite (Habsent lang_dir dirlang Hin Hjoin). }
  eexists _, loaded_data. split; [exact Hrun|]. split; [exact Hempty|].
  apply no_records_no_keys.
  intros entry (lang & loaded & filename & entries & Hlang & Hfile & _).
  apply Hempty in Hlang as [_ ->]. by rewrite lookup_empty in Hfile.
Qed.

(** ** The further results on the example inputs *)

Lemma load_dir_lookup_witness :
  fs_lookup example_fs "data/en" = Some (Dir ["a.jsonl"; "b.jsonl"])
  ∧ ∃ loaded,
      (load_dir example_fs (Some "data/en") None).2 = inr loaded
      ∧ ∀ fname records,
          loaded !! fname = Some records ↔
            str_endswith fname ".jsonl" = true
            ∧ (∃ i, ["a.jsonl"; "b.jsonl"] !! i = Some fname ∧ within_cap None i = true)
            ∧ load_entry example_fs (Some "data/en") fname = inr records.
Proof.
  assert (fs_lookup example_fs "data/en" = Some (Dir ["a.jsonl"; "b.jsonl"])) as Hdir
    by reflexivity.
  assert (∃ loaded, (load_dir example_fs (Some "data/en") None).2 = inr loaded)
    as [loaded Hrun] by (eexists; reflexivity).
  split; [exact Hdir|]. exists loaded. split; [exact Hrun|].
  exact (load_dir_lookup example_fs "data/en" _ None loaded Hdir Hrun).
Defined.

Lemma load_dir_returns_iff_witness :
  fs_lookup example_fs "data/gap" = Some (Dir ["x.jsonl"])
  ∧ ((∃ loaded, (load_dir example_fs (Some "data/gap") (Some 1%Z)).2 = inr loaded) ↔
     ∀ fname i, ["x.jsonl"] !! i = Some fname → str_endswith fname ".jsonl" = true →
                within_cap (Some 1%Z) i = true →
                ∃ records, load_entry example_fs (Some "data/gap") fname = inr records).
Proof.
  assert (fs_lookup example_fs "data/gap" = Some (Dir ["x.jsonl"])) as Hdir by reflexivity.
  split; [exact Hdir|].
  exact (load_dir_returns_iff example_fs "data/gap" _ (Some 1%Z) Hdir).
Defined.

Lemma load_dir_reads_selected_only_witness :
  fs_lookup example_fs "data/mixed" = Some (Dir ["notes.txt"; "a.jsonl"])
  ∧ fs_lookup example_fs_edited "data/mixed" = Some (Dir ["notes.txt"; "a.jsonl"])
  ∧ load_dir example_fs (Some "data/mixed") None
    = load_dir example_fs_edited (Some "data/mixed") None.
Proof.
  assert (fs_lookup example_fs "data/mixed" = Some (Dir ["notes.txt"; "a.jsonl"]))
    as Hdir by reflexivity.
  assert (fs_lookup example_fs_edited "data/mixed" = Some (Dir ["notes.txt"; "a.jsonl"]))
    as Hdir' by reflexivity.
  split; [exact Hdir|]. split; [exact Hdir'|].
  apply (load_dir_reads_selected_only example_fs example_fs_edited "data/mixed" _ None
           Hdir Hdir').
  intros fname [|[|i]] Hi Hext Hcap; simpl in Hi.
  - injection Hi as <-. vm_compute in Hext. discriminate Hext.
  - injection Hi as <-. reflexivity.
  - discriminate Hi.
Defined.

Lemma load_dir_size_witness :
  fs_lookup example_fs "data/en" = Some (Dir ["a.jsonl"; "b.jsonl"])
  ∧ ∃ loaded,
      (load_dir example_fs (Some "data/en") (Some 1%Z)).2 = inr loaded
      ∧ (size loaded ≤ 2)%nat ∧ (Z.of_nat (size loaded) ≤ 1)%Z.
Proof.
  assert (fs_lookup example_fs "data/en" = Some (Dir ["a.jsonl"; "b.jsonl"])) as Hdir
    by reflexivity.
  assert (∃ loaded, (load_dir example_fs (Some "data/en") (Some 1%Z)).2 = inr loaded)
    as [loaded Hrun] by (eexists; reflexivity).
  split; [exact Hdir|]. exists loaded. split; [exact Hrun|].
  destruct (load_dir_size example_fs "data/en" _ (Some 1%Z) loaded Hdir Hrun)
    as [Hcount Hcap].
  split; [exact Hcount | exact (Hcap 1%Z eq_refl)].
Defined.

Lemma load_dir_cap_nonpositive_witness :
  fs_lookup example_fs "data/gap" = Some (Dir ["x.jsonl"])
  ∧ (0 ≤ 0)%Z
  ∧ load_dir example_fs (Some "data/gap") (Some 0%Z)
    = ([Msg_data_dir (Some "data/gap")], inr ∅).
Proof.
  assert (fs_lookup example_fs "data/gap" = Some (Dir ["x.jsonl"])) as Hdir by reflexivity.
  split; [exact Hdir|]. split; [lia|].
  apply (load_dir_cap_nonpositive example_fs "data/gap" _ 0%Z Hdir). lia.
Defined.

Lemma load_dir_cap_monotone_witness :
  fs_lookup example_fs "data/en" = Some (Dir ["a.jsonl"; "b.jsonl"])
  ∧ cap_le (Some 1%Z) None
  ∧ ∃ loaded' loaded,
      (load_dir example_fs (Some "data/en") None).2 = inr loaded'
      ∧ (load_dir example_fs (Some "data/en") (Some 1%Z)).2 = inr loaded
      ∧ loaded ⊆ loaded'.
Proof.
  assert (fs_lookup example_fs "data/en" = Some (Dir ["a.jsonl"; "b.jsonl"])) as Hdir
    by reflexivity.
  assert (∃ loaded', (load_dir example_fs (Some "data/en") None).2 = inr loaded')
    as [loaded' Hrun'] by (eexists; reflexivity).
  split; [exact Hdir|]. split; [exact I|].
  destruct (load_dir_cap_monotone example_fs "data/en" _ (Some 1%Z) None loaded'
              Hdir I Hrun') as (loaded & Hrun & Hsub).
  exists loaded', loaded. split; [exact Hrun'|]. split; [exact Hrun | exact Hsub].
Defined.

Lemma load_dir_cap_exact_witness :
  fs_lookup example_fs "data/en" = Some (Dir ["a.jsonl"; "b.jsonl"])
  ∧ NoDup ["a.jsonl"; "b.jsonl"]
  ∧ (1 ≤ length ["a.jsonl"; "b.jsonl"])%nat
  ∧ ∃ loaded,
      (load_dir example_fs (Some "data/en") (Some 1%Z)).2 = inr loaded
      ∧ size loaded = 1
      ∧ ∀ fname, is_Some (loaded !! fname) ↔ fname ∈ take 1 ["a.jsonl"; "b.jsonl"].
Proof.
  assert (fs_lookup example_fs "data/en" = Some (Dir ["a.jsonl"; "b.jsonl"])) as Hdir
    by reflexivity.
  assert (NoDup ["a.jsonl"; "b.jsonl"]) as Hnodup.
  { apply NoDup_cons. split; [|apply NoDup_singleton].
    intros Hin%list_elem_of_singleton. discriminate Hin. }
  assert (1 ≤ length ["a.jsonl"; "b.jsonl"])%nat as Hcap by (simpl; lia).
  split; [exact Hdir|]. split; [exact Hnodup|]. split; [exact Hcap|].
  apply (load_dir_cap_exact example_fs "data/en" _ 1 Hdir Hnodup); [|exact Hcap].
  intros fname Hin.
  apply elem_of_cons in Hin as [->|Hin]; [split; [reflexivity | eexists; reflexivity]|].
  apply list_elem_of_singleton in Hin as ->.
  split; [reflexivity | eexists; reflexivity].
Defined.

Lemma load_all_data_lookup_witness :
  os_path_exists example_fs "data" = true
  ∧ ["en"; "fr"] ≠ []
  ∧ ∃ out loaded_data,
      load_all_data example_fs (Some "data") (Py_list ["en"; "fr"]) None
      = (out, inr loaded_data)
      ∧ ∀ lang_dir loaded,
          loaded_data !! lang_dir = Some loaded ↔
          lang_dir ∈ ["en"; "fr"] ∧ loaded_for example_fs "data" None lang_dir loaded.
Proof.
  assert (os_path_exists example_fs "data" = true) as Hroot by reflexivity.
  assert (["en"; "fr"] ≠ []) as Hnames by discriminate.
  assert (∃ out loaded_data,
            load_all_data example_fs (Some "data") (Py_list ["en"; "fr"]) None
            = (out, inr loaded_data)) as (out & loaded_data & Hrun)
    by (do 2 eexists; reflexivity).
  split; [exact Hroot|]. split; [exact Hnames|]. exists out, loaded_data.
  split; [exact Hrun|].
  exact (load_all_data_lookup example_fs "data" _ None out loaded_data Hroot Hnames Hrun).
Defined.

Lemma load_all_data_returns_iff_witness :
  os_path_exists example_fs "data" = true
  ∧ ["en"; "gap"] ≠ []
  ∧ ((∃ out loaded_data,
        load_all_data example_fs (Some "data") (Py_list ["en"; "gap"]) None
        = (out, inr loaded_data)) ↔
     ∀ lang_dir dirlang, lang_dir ∈ ["en"; "gap"] →
       os_path_join (Some "data") lang_dir = inr dirlang →
       present example_fs dirlang = true →
       ∃ loaded, (load_dir example_fs (Some dirlang) None).2 = inr loaded).
Proof.
  assert (os_path_exists example_fs "data" = true) as Hroot by reflexivity.
  assert (["en"; "gap"] ≠ []) as Hnames by discriminate.
  split; [exact Hroot|]. split; [exact Hnames|].
  exact (load_all_data_returns_iff example_fs "data" _ None Hroot Hnames).
Defined.

Lemma load_all_data_errors_witness :
  os_path_exists example_fs "data" = true
  ∧ ["en"; "gap"; "de"] ≠ []
  ∧ ∃ out,
      load_all_data example_fs (Some "data") (Py_list ["en"; "gap"; "de"]) None
      = (out, inl JSONDecodeError)
      ∧ ∃ lang_dir dirlang,
          lang_dir ∈ ["en"; "gap"; "de"]
          ∧ os_path_join (Some "data") lang_dir = inr dirlang
          ∧ present example_fs dirlang = true
          ∧ (load_dir example_fs (Some dirlang) None).2 = inl JSONDecodeError
          ∧ last out = Some (Msg_data_dir (Some dirlang)).
Proof.
  assert (os_path_exists example_fs "data" = true) as Hroot by reflexivity.
  assert (["en"; "gap"; "de"] ≠ []) as Hnames by discriminate.
  assert (∃ out,
            load_all_data example_fs (Some "data") (Py_list ["en"; "gap"; "de"]) None
            = (out, inl JSONDecodeError)) as (out & Hrun) by (eexists; reflexivity).
  split; [exact Hroot|]. split; [exact Hnames|]. exists out. split; [exact Hrun|].
  exact (load_all_data_errors example_fs "data" _ None out JSONDecodeError
           Hroot Hnames Hrun).
Defined.

Lemma load_all_data_order_irrelevant_witness :
  os_path_exists example_fs "data" = true
  ∧ ["en"; "de"] ≠ []
  ∧ (∀ lang_dir, lang_dir ∈ ["en"; "de"] ↔ lang_dir ∈ ["de"; "en"; "de"])
  ∧ ∃ out out' loaded_data,
      load_all_data example_fs (Some "data") (Py_list ["en"; "de"]) (Some 1%Z)
      = (out, inr loaded_data)
      ∧ load_all_data example_fs (Some "data") (Py_list ["de"; "en"; "de"]) (Some 1%Z)
        = (out', inr loaded_data).
Proof.
  assert (os_path_exists example_fs "data" = true) as Hroot by reflexivity.
  assert (["en"; "de"] ≠ []) as Hnames by discriminate.
  assert (∀ lang_dir, lang_dir ∈ ["en"; "de"] ↔ lang_dir ∈ ["de"; "en"; "de"]) as Hsame.
  { intros lang_dir. rewrite !elem_of_cons, !elem_of_nil. tauto. }
  assert (∃ out loaded_data,
            load_all_data example_fs (Some "data") (Py_list ["en"; "de"]) (Some 1%Z)
            = (out, inr loaded_data)) as (out & loaded_data & Hrun)
    by (do 2 eexists; reflexivity).
  split; [exact Hroot|]. split; [exact Hnames|]. split; [exact Hsame|].
  destruct (load_all_data_order_irrelevant example_fs "data" _ ["de"; "en"; "de"]
              (Some 1%Z) out loaded_data Hroot Hnames Hsame Hrun) as [out' Hrun'].
  exists out, out', loaded_data. split; [exact Hrun | exact Hrun'].
Defined.

Lemma load_all_data_summary_witness :
  os_path_exists example_fs "data" = true
  ∧ ["en"; "mixed"; "en"] ≠ []
  ∧ ∃ out loaded_data walked n_loaded,
      load_all_data example_fs (Some "data") (Py_list ["en"; "mixed"; "en"]) (Some 2%Z)
      = (out, inr loaded_data)
      ∧ out = (walked ++ [Msg_summary (size (list_to_set ["en"; "mixed"; "en"]
                                              : gset string)) n_loaded;
                          Msg_success (Some "data")])%list
      ∧ (n_loaded ≤ size (list_to_set ["en"; "mixed"; "en"] : gset string) * 2)%nat.
Proof.
  assert (os_path_exists example_fs "data" = true) as Hroot by reflexivity.
  assert (["en"; "mixed"; "en"] ≠ []) as Hnames by discriminate.
  assert (∃ out loaded_data,
            load_all_data example_fs (Some "data") (Py_list ["en"; "mixed"; "en"])
              (Some 2%Z) = (out, inr loaded_data)) as (out & loaded_data & Hrun)
    by (do 2 eexists; reflexivity).
  split; [exact Hroot|]. split; [exact Hnames|].
  destruct (load_all_data_summary example_fs "data" _ (Some 2%Z) out loaded_data
              Hroot Hnames Hrun) as (walked & n_loaded & Hout & Hbound).
  exists out, loaded_data, walked, n_loaded. split; [exact Hrun|].
  split; [exact Hout | exact (Hbound 2%Z eq_refl)].
Defined.


Lemma identify_missing_keys_uniform_witness :
  (∀ entry, in_corpus entry example_corpus → is_object entry = true)
  ∧ ∃ set_of_keys missing_keys,
      (identify_missing_keys example_corpus).2 = inr (set_of_keys, missing_keys)
      ∧ (missing_keys = ∅ ↔
           ∀ entry entry', in_corpus entry example_corpus →
             in_corpus entry' example_corpus →
             ∀ key, has_key key entry ↔ has_key key entry').
Proof.
  assert (∀ entry, in_corpus entry example_corpus → is_object entry = true) as Hobj
    by (apply all_objects_in_corpus; reflexivity).
  split; [exact Hobj|].
  destruct (identify_missing_keys_uniform example_corpus Hobj)
    as (set_of_keys & missing_keys & Hrun & Hiff & _).
  exists set_of_keys, missing_keys. split; [exact Hrun | exact Hiff].
Defined.


Lemma load_dir_no_directory_witness :
  fs_lookup example_fs_cwd "." = Some (Dir ["b.jsonl"; "c.txt"])
  ∧ load_dir example_fs_cwd None (Some 0%Z) = ([Msg_data_dir None], inr ∅)
  ∧ load_dir example_fs_cwd None (Some 1%Z) = ([Msg_data_dir None], inl TypeError).
Proof.
  assert (fs_lookup example_fs_cwd "." = Some (Dir ["b.jsonl"; "c.txt"])) as Hcwd
    by reflexivity.
  split; [exact Hcwd|]. split.
  - apply (load_dir_no_directory example_fs_cwd _ (Some 0%Z) Hcwd).
    intros fname i _ _. simpl. apply Z.ltb_ge. lia.
  - apply (load_dir_no_directory example_fs_cwd _ (Some 1%Z) Hcwd).
    exists "b.jsonl", 0. repeat split; reflexivity.
Defined.

Lemma audit_of_absent_data_witness :
  os_path_exists example_fs "data" = true
  ∧ ["fr"; "README"] ≠ []
  ∧ ∃ out loaded_data,
      load_all_data example_fs (Some "data") (Py_list ["fr"; "README"]) (Some 1%Z)
      = (out, inr loaded_data)
      ∧ identify_missing_keys loaded_data
        = ([Msg_set_of_keys ∅; Msg_missing_keys ∅], inr (∅, ∅)).
Proof.
  assert (os_path_exists example_fs "data" = true) as Hroot by reflexivity.
  assert (["fr"; "README"] ≠ []) as Hnames by discriminate.
  split; [exact Hroot|]. split; [exact Hnames|].
  destruct (audit_of_absent_data example_fs "data" ["fr"; "README"] (Some 1%Z)
              Hroot Hnames) as (out & loaded_data & Hrun & _ & Haudit).
  { intros lang_dir dirlang Hin.
    apply elem_of_cons in Hin as [->|Hin]; [by intros [= <-]|].
    apply list_elem_of_singleton in Hin as ->. by intros [= <-]. }
  exists out, loaded_data. split; [exact Hrun | exact Haudit].
Defined.
